(** * Eventbrite ticket monitor: model of [main.py] and its properties

    The development embeds the class [EventbriteMonitor] of [main.py]:
    the availability check of one event page ([check_event_availability]),
    the two gateway helpers ([make_alert_call], [check_call_answered]),
    the registry operations ([add_event], [remove_event]) and the
    monitoring loop ([monitor_events]).

    Conventions.
    - A Python [str] is a list of Unicode code points ([pystr]).
    - What CPython takes from the Unicode database (the classes behind
      [\s], [\w], [re.IGNORECASE] and [str.lower] outside ASCII) is a
      parameter, the class [Unicode]; the ASCII part is written out.
    - Clock readings ([time.time()]) are exact numbers of seconds in [Z];
      the loop only subtracts two readings and compares with integers.
    - Exceptions are the instances of [Exception]; what happens outside
      the process (HTTP, the HTML parser, the call gateway, the clock) is
      read from a [World], one per iteration of the monitoring loop.
    - A status is the Python dict the check returns, a [gmap] from key to
      value; the registry is a dict iterated in insertion order, an
      association list. *)

From stdpp Require Import base strings list gmap pretty.
From Stdlib Require Import ZArith NArith Lia Ascii String.

(** ** Python strings *)

Definition char := N.
Definition pystr := list char.

(** A string literal of the source, as code points. *)
Fixpoint py (s : string) : pystr :=
  match s with
  | EmptyString => []
  | String a r => N_of_ascii a :: py r
  end.

Fixpoint starts_with (p s : pystr) : bool :=
  match p, s with
  | [], _ => true
  | _ :: _, [] => false
  | a :: p', b :: s' => (a =? b)%N && starts_with p' s'
  end.

(** [p in s] on strings. *)
Fixpoint contains (p s : pystr) : bool :=
  starts_with p s ||
  match s with
  | [] => false
  | _ :: s' => contains p s'
  end.

Definition str_eqb (a b : pystr) : bool := bool_decide (a = b).

(** [sep.join(l)] *)
Fixpoint join (sep : pystr) (l : list pystr) : pystr :=
  match l with
  | [] => []
  | [x] => x
  | x :: r => x ++ sep ++ join sep r
  end.

(** ** Character classes *)

(** The part of the Unicode database the program reaches through [re] and
    [str], for code points above 127. *)
Class Unicode := {
  unicode_isalnum : char -> bool;
  unicode_isspace : char -> bool;
  unicode_ignorecase : char -> char -> bool;
  str_lower : pystr -> pystr
}.

Definition between (lo hi c : N) : bool := ((lo <=? c) && (c <=? hi))%N.

Definition ascii_isalnum (c : char) : bool :=
  between 48 57 c || between 65 90 c || between 97 122 c.

Definition ascii_isspace (c : char) : bool :=
  between 9 13 c || between 28 32 c.

Definition ascii_lower (c : char) : char :=
  if between 65 90 c then (c + 32)%N else c.

Section Classes.
Context {U : Unicode}.

(** [\s] *)
Definition isspace (c : char) : bool :=
  if (c <? 128)%N then ascii_isspace c else unicode_isspace c.

(** [\w]: alphanumeric or underscore *)
Definition isword (c : char) : bool :=
  if (c <? 128)%N then ascii_isalnum c || (c =? 95)%N else unicode_isalnum c.

(** A literal [p] of a pattern against the character [x] of the text. *)
Definition chr_match (ignorecase : bool) (p x : char) : bool :=
  (x =? p)%N ||
  (ignorecase &&
   if (x <? 128)%N then (ascii_lower x =? ascii_lower p)%N
   else unicode_ignorecase p x).

Fixpoint lstrip (s : pystr) : pystr :=
  match s with
  | [] => []
  | c :: s' => if isspace c then lstrip s' else s
  end.

(** [s.strip()] *)
Definition strip (s : pystr) : pystr := rev (lstrip (rev (lstrip s))).

(** ** Regular expressions

    The subset of [re] syntax the source uses in [re.search]: literals,
    [\b], [\s+] and an optional character [c?]. *)

Inductive atom :=
| Chr (c : char)
| Opt (c : char)
| Spaces
| Boundary.

Fixpoint re_compile (s : string) : list atom :=
  match s with
  | EmptyString => []
  | String "\" (String "b" r) => Boundary :: re_compile r
  | String "\" (String "s" (String "+" r)) => Spaces :: re_compile r
  | String c (String "?" r) => Opt (N_of_ascii c) :: re_compile r
  | String c r => Chr (N_of_ascii c) :: re_compile r
  end.

Definition word_before (prev : option char) : bool :=
  match prev with Some c => isword c | None => false end.

Definition word_at (s : pystr) : bool :=
  match s with c :: _ => isword c | [] => false end.

(** Does the pattern match a prefix of [s], the character before [s]
    being [prev]? *)
Fixpoint match_here (ic : bool) (p : list atom) : option char -> pystr -> bool :=
  match p with
  | [] => fun _ _ => true
  | Chr c :: p' => fun _ s =>
      match s with
      | x :: s' => chr_match ic c x && match_here ic p' (Some x) s'
      | [] => false
      end
  | Opt c :: p' => fun prev s =>
      match s with
      | x :: s' => chr_match ic c x && match_here ic p' (Some x) s'
      | [] => false
      end || match_here ic p' prev s
  | Spaces :: p' => fun _ s =>
      (fix spaces (s : pystr) : bool :=
         match s with
         | x :: s' => isspace x && (match_here ic p' (Some x) s' || spaces s')
         | [] => false
         end) s
  | Boundary :: p' => fun prev s =>
      xorb (word_before prev) (word_at s) && match_here ic p' prev s
  end.

Fixpoint search_from (ic : bool) (p : list atom) (prev : option char) (s : pystr) : bool :=
  match_here ic p prev s ||
  match s with
  | [] => false
  | x :: s' => search_from ic p (Some x) s'
  end.

(** [re.search(pattern, s)] and [re.search(pattern, s, re.IGNORECASE)],
    as a truth value. *)
Definition re_search (pattern : string) (s : pystr) : bool :=
  search_from false (re_compile pattern) None s.

Definition re_search_ignorecase (pattern : string) (s : pystr) : bool :=
  search_from true (re_compile pattern) None s.

End Classes.

(** ** Values, dicts and exceptions *)

Inductive value :=
| VBool (b : bool)
| VStr (s : pystr)
| VInt (z : Z).

(** The truth value of a Python value. *)
Definition truthy (v : value) : bool :=
  match v with
  | VBool b => b
  | VStr s => negb (str_eqb s [])
  | VInt z => negb (z =? 0)%Z
  end.

(** The four exception classes that matter; all derive from [Exception],
    and [except requests.RequestException] selects the first. *)
Inductive exn :=
| RequestException (msg : pystr)
| KeyError (key : string)
| TypeError (msg : pystr)
| OtherException (msg : pystr).

(** [str(e)] *)
Definition exn_str (e : exn) : pystr :=
  match e with
  | RequestException msg => msg
  | KeyError key => py "'" ++ py key ++ py "'"
  | TypeError msg => msg
  | OtherException msg => msg
  end.

Inductive result (A : Type) :=
| Ok (a : A)
| Raise (e : exn).
Arguments Ok {A} a.
Arguments Raise {A} e.

#[global] Instance result_ret : MRet result := fun A a => Ok a.
#[global] Instance result_bind : MBind result := fun A B f m =>
  match m with
  | Ok a => f a
  | Raise e => Raise e
  end.

(** [try: body except Exception as e: handler(e)] *)
Definition try_except {A} (body : result A) (handler : exn -> result A) : result A :=
  match body with
  | Ok a => Ok a
  | Raise e => handler e
  end.

(** [d[key]] *)
Definition getitem (d : gmap string value) (key : string) : result value :=
  match d !! key with
  | Some v => Ok v
  | None => Raise (KeyError key)
  end.

(** ** The outside world *)

(** A [bs4] element, through the three reads the source makes of it:
    [get_text()], [get('class', [])] and [get('disabled')]. *)
Record Tag := {
  tag_get_text : pystr;
  tag_class : option (list pystr);
  tag_disabled : option pystr
}.

(** The parsed page, through the queries the source makes of it. *)
Record Soup := {
  soup_get_text : pystr;
  soup_find_h1_title : option Tag;   (* find('h1', class_=re.compile('event-title|title')) *)
  soup_find_h1 : option Tag;         (* find('h1') *)
  soup_find_title : option Tag;      (* find('title') *)
  soup_select : string -> list Tag;  (* select(selector) *)
  soup_find_all_sold_out : list Tag  (* find_all(class_=re.compile(r'sold.?out|unavailable', re.I)) *)
}.

Record Response := {
  status_code : Z;
  reason : pystr;
  response_url : pystr;
  content : pystr
}.

(** What the process observes during one iteration of the monitoring
    loop.  The operations on the network and on the gateway are indexed by
    the event being processed: each happens at most once per event and
    iteration. *)
Record World := {
  time_time : Z;                                    (* time.time() at the top of the iteration *)
  session_get : pystr -> result Response;           (* session.get(event_url, timeout=15) *)
  beautiful_soup : pystr -> result Soup;            (* BeautifulSoup(content, 'html.parser') and its queries *)
  datetime_now : pystr -> pystr;                    (* datetime.now().isoformat() *)
  calls_create : pystr -> pystr -> result pystr;    (* twilio calls.create(...).sid, given the spoken text *)
  calls_fetch : pystr -> pystr -> result pystr      (* twilio calls(call_sid).fetch().status *)
}.

(** The message of the [HTTPError] of [requests]:
    [f"{status_code} {kind}: {reason} for url: {url}"]. *)
Definition http_error_msg (kind : string) (r : Response) : pystr :=
  py (pretty (status_code r)) ++ py " " ++ py kind ++ py ": " ++ reason r
  ++ py " for url: " ++ response_url r.

(** [response.raise_for_status()]: an [HTTPError], which is a
    [RequestException], for the 4xx and 5xx codes. *)
Definition raise_for_status (r : Response) : result unit :=
  if ((400 <=? status_code r) && (status_code r <? 500))%Z
  then Raise (RequestException (http_error_msg "Client Error" r))
  else if ((500 <=? status_code r) && (status_code r <? 600))%Z
  then Raise (RequestException (http_error_msg "Server Error" r))
  else Ok tt.

(** ** [check_event_availability] (lines 81-233) *)

Definition sold_out_patterns : list string :=
  [ "\bsold out\b";
    "\bregistration closed\b";
    "\btickets unavailable\b";
    "\bevent has ended\b";
    "\bregistration is closed\b";
    "\bno longer available\b";
    "\bunavailable\b";
    "\bsales ended\b";
    "\bsale has ended\b";
    "\bevents ended\b" ]%string.

Definition availability_patterns : list string :=
  [ "select\s+date\s+and\s+time";
    "reserve\s+a\s+spot";
    "get\s+tickets";
    "buy\s+now";
    "purchase\s+tickets";
    "register\s+now" ]%string.

(** The double quote, and an attribute selector [tag[attr op "v"]]. *)
Definition dquote : string := String (ascii_of_nat 34) EmptyString.

Definition attr_selector (tag attr_op v : string) : string :=
  (tag +:+ "[" +:+ attr_op +:+ dquote +:+ v +:+ dquote +:+ "]")%string.

Definition ticket_selectors : list string :=
  [ attr_selector "button" "data-spec=" "eds-button";
    attr_selector "a" "data-spec=" "eds-button";
    attr_selector "button" "class*=" "ticket";
    attr_selector "a" "class*=" "ticket";
    attr_selector "button" "class*=" "register";
    attr_selector "a" "class*=" "register";
    ".ticket-button";
    ".register-button";
    attr_selector "" "data-automation=" "checkout-widget-register-button" ]%string.

Definition ticket_words : list string :=
  [ "ticket"; "register"; "get tickets"; "buy now"; "purchase"; "reserve a spot" ]%string.

Definition quantity_patterns : list string :=
  [ "\b0\s+remaining\b";
    "\b0\s+tickets?\s+remaining\b";
    "\b0\s+spots?\s+remaining\b" ]%string.

Section Checker.
Context {U : Unicode}.

(** [page_text = soup.get_text().lower()] *)
Definition page_text (soup : Soup) : pystr := str_lower (soup_get_text soup).

(** [title_elem.get_text().strip() if title_elem else "Unknown Event"];
    an element is always true, so [or] takes the first one found. *)
Definition event_title (soup : Soup) : pystr :=
  let title_elem :=
    match soup_find_h1_title soup with
    | Some t => Some t
    | None =>
        match soup_find_h1 soup with
        | Some t => Some t
        | None => soup_find_title soup
        end
    end in
  match title_elem with
  | Some t => strip (tag_get_text t)
  | None => py "Unknown Event"
  end.

Definition is_sold_out_text (soup : Soup) : bool :=
  existsb (fun pattern => re_search pattern (page_text soup)) sold_out_patterns.

Definition has_availability_text (soup : Soup) : bool :=
  existsb (fun pattern => re_search_ignorecase pattern (page_text soup)) availability_patterns.

(** The buttons the two nested loops visit, in order; a button that
    several selectors find is visited once for each. *)
Definition buttons (soup : Soup) : list Tag :=
  flat_map (soup_select soup) ticket_selectors.

Definition button_text (button : Tag) : pystr := str_lower (tag_get_text button).

Definition button_classes (button : Tag) : pystr :=
  str_lower (join (py " ") (default [] (tag_class button))).

(** [button.get('disabled')] as a condition: an attribute that is present
    with a non-empty value. *)
Definition disabled_attribute (button : Tag) : bool :=
  match tag_disabled button with
  | Some v => negb (str_eqb v [])
  | None => false
  end.

Definition is_disabled (button : Tag) : bool :=
  disabled_attribute button ||
  contains (py "disabled") (button_classes button) ||
  contains (py "sold-out") (button_classes button) ||
  contains (py "unavailable") (button_classes button).

Definition has_ticket_text (button : Tag) : bool :=
  existsb (fun word => contains (py word) (button_text button)) ticket_words.

Definition available_buttons (soup : Soup) : list Tag :=
  List.filter (fun button => has_ticket_text button && negb (is_disabled button)) (buttons soup).

Definition total_buttons (soup : Soup) : Z := Z.of_nat (List.length (buttons soup)).

Definition has_sold_out_elements (soup : Soup) : bool :=
  (0 <? Z.of_nat (List.length (soup_find_all_sold_out soup)))%Z.

Definition has_zero_remaining (soup : Soup) : bool :=
  existsb (fun pattern => re_search pattern (page_text soup)) quantity_patterns.

Definition is_definitely_sold_out (soup : Soup) : bool :=
  (is_sold_out_text soup || has_sold_out_elements soup || has_zero_remaining soup)
  && negb (has_availability_text soup).

Definition is_available (soup : Soup) : bool :=
  (has_availability_text soup || (0 <? Z.of_nat (List.length (available_buttons soup)))%Z)
  && negb (is_definitely_sold_out soup).

(** The dict built at the end of the [try] block. *)
Definition page_status (event_url : pystr) (soup : Soup) (checked_at : pystr)
  : gmap string value :=
  {[ "url" := VStr event_url;
     "title" := VStr (event_title soup);
     "available" := VBool (is_available soup);
     "sold_out" := VBool (is_definitely_sold_out soup);
     "total_buttons_found" := VInt (total_buttons soup);
     "available_buttons" := VInt (Z.of_nat (List.length (available_buttons soup)));
     "sold_out_text_found" := VBool (is_sold_out_text soup);
     "sold_out_elements_found" := VBool (has_sold_out_elements soup);
     "zero_remaining_found" := VBool (has_zero_remaining soup);
     "availability_text_found" := VBool (has_availability_text soup);
     "checked_at" := VStr checked_at ]}.

(** The dict the two [except] clauses return. *)
Definition error_status (event_url title : pystr) (e : exn) (checked_at : pystr)
  : gmap string value :=
  {[ "url" := VStr event_url;
     "title" := VStr title;
     "available" := VBool false;
     "error" := VStr (exn_str e);
     "checked_at" := VStr checked_at ]}.

(** The [try] block. *)
Definition check_page (W : World) (event_url : pystr) : result (gmap string value) :=
  response ← session_get W event_url;
  raise_for_status response;;
  soup ← beautiful_soup W (content response);
  mret (page_status event_url soup (datetime_now W event_url)).

Definition check_event_availability (W : World) (event_url : pystr)
  : result (gmap string value) :=
  try_except (check_page W event_url)
    (fun e =>
       match e with
       | RequestException _ =>
           mret (error_status event_url (py "Error - Network Issue") e
                   (datetime_now W event_url))
       | _ =>
           mret (error_status event_url (py "Error - Parse Issue") e
                   (datetime_now W event_url))
       end).

End Checker.

(** ** The registry: [add_event], [remove_event] (lines 267-287) *)

(** A dict entry that may be missing, hold [None], or hold a value. *)
Inductive field (A : Type) :=
| Absent
| PyNone
| Val (a : A).
Arguments Absent {A}.
Arguments PyNone {A}.
Arguments Val {A} a.

(** [d.get(key)] as a condition, for a string entry. *)
Definition field_truthy (f : field pystr) : bool :=
  match f with
  | Val s => negb (str_eqb s [])
  | _ => false
  end.

(** The dict [add_event] stores for one event; [last_call_sid] and
    [call_made_at] are the two keys the loop adds later. *)
Record event_config := {
  interval : Z;
  last_check : Z;
  last_status : option (gmap string value);
  alert_sent : bool;
  last_call_sid : field pystr;
  call_made_at : field Z
}.

Definition set_call (sid : field pystr) (at_ : field Z) (c : event_config) : event_config :=
  {| interval := interval c; last_check := last_check c; last_status := last_status c;
     alert_sent := alert_sent c; last_call_sid := sid; call_made_at := at_ |}.

Definition set_alert_sent (b : bool) (c : event_config) : event_config :=
  {| interval := interval c; last_check := last_check c; last_status := last_status c;
     alert_sent := b; last_call_sid := last_call_sid c; call_made_at := call_made_at c |}.

Definition set_checked (t : Z) (status : gmap string value) (c : event_config) : event_config :=
  {| interval := interval c; last_check := t; last_status := Some status;
     alert_sent := alert_sent c; last_call_sid := last_call_sid c;
     call_made_at := call_made_at c |}.

(** [self.monitored_events], in insertion order. *)
Definition registry := list (pystr * event_config).

Definition new_event (check_interval : Z) : event_config :=
  {| interval := check_interval; last_check := 0; last_status := None;
     alert_sent := false; last_call_sid := Absent; call_made_at := Absent |}.

(** [d[key] = v]: in place for a key already there, else at the end. *)
Fixpoint dict_set (key : pystr) (v : event_config) (d : registry) : registry :=
  match d with
  | [] => [(key, v)]
  | (k, x) :: d' => if str_eqb k key then (k, v) :: d' else (k, x) :: dict_set key v d'
  end.

Definition add_event (event_url : pystr) (check_interval : Z) (d : registry) : registry :=
  dict_set event_url (new_event check_interval) d.

Definition remove_event (event_url : pystr) (d : registry) : registry :=
  List.filter (fun kv => negb (str_eqb (fst kv) event_url)) d.

(** ** The gateway helpers: [make_alert_call] (lines 235-265) and
    [check_call_answered] (lines 341-357) *)

(** [str(v)], as an f-string formats it. *)
Definition value_str (v : value) : pystr :=
  match v with
  | VStr s => s
  | VBool true => py "True"
  | VBool false => py "False"
  | VInt z => py (pretty z)
  end.

Definition alert_text (title : value) : pystr :=
  py "Alert! Eventbrite tickets are now available for " ++ value_str title ++ py ". "
  ++ py "Check the event page immediately to purchase tickets. "
  ++ py "I repeat, tickets are now available.".

(** Returns [call.sid], or [None] when anything in the [try] raises. *)
Definition make_alert_call (W : World) (event_url : pystr) (event_info : gmap string value)
  : option pystr :=
  match (title ← getitem event_info "title";
         calls_create W event_url (alert_text title)) with
  | Ok sid => Some sid
  | Raise _ => None
  end.

Definition answered_statuses : list string := [ "completed"; "in-progress" ]%string.

(** [call.status in ['completed', 'in-progress']], or [False] when the
    fetch raises. *)
Definition check_call_answered (W : World) (event_url call_sid : pystr) : bool :=
  match calls_fetch W event_url call_sid with
  | Ok status => existsb (fun s => str_eqb status (py s)) answered_statuses
  | Raise _ => false
  end.

(** ** The monitoring loop: [monitor_events] (lines 289-339) *)

(** What the loop does that is visible outside, one entry per event. *)
Inductive action :=
| Checked (event_url : pystr) (status : gmap string value)
| CallPlaced (event_url : pystr) (call_sid : option pystr)
| CallQueried (event_url call_sid : pystr) (answered : bool)
| ErrorLogged (event_url : pystr) (e : exn).

(** An action with the [current_time] of its iteration. *)
Definition entry := (Z * action)%type.

(** Code that runs on one [event_config]: it may raise, it mutates the
    config in place (so a mutation made before a raise stays), and it
    leaves entries in the log. *)
Definition M (A : Type) : Type := event_config -> result A * event_config * list entry.

#[global] Instance M_ret : MRet M := fun A a c => (Ok a, c, []).
#[global] Instance M_bind : MBind M := fun A B f m c =>
  match m c with
  | (Ok a, c', l) => let '(r, c'', l') := f a c' in (r, c'', l ++ l')
  | (Raise e, c', l) => (Raise e, c', l)
  end.

Definition get_config : M event_config := fun c => (Ok c, c, []).
Definition modify (f : event_config -> event_config) : M unit := fun c => (Ok tt, f c, []).
Definition tell (t : Z) (a : action) : M unit := fun c => (Ok tt, c, [(t, a)]).
Definition lift {A} (r : result A) : M A := fun c => (r, c, []).

Definition try_except_M (body : M unit) (handler : exn -> M unit) : M unit := fun c =>
  match body c with
  | (Raise e, c', l) => let '(r, c'', l') := handler e c' in (r, c'', l ++ l')
  | ok => ok
  end.

(** [current_time - event_config.get('call_made_at', 0)] *)
Definition since_call (current_time : Z) (at_ : field Z) : result Z :=
  match at_ with
  | Absent => Ok (current_time - 0)%Z
  | PyNone => Raise (TypeError (py "unsupported operand type(s) for -: 'float' and 'NoneType'"))
  | Val t => Ok (current_time - t)%Z
  end.

(** [event_config['last_call_sid']], once the condition has found it true. *)
Definition field_read (f : field pystr) : pystr :=
  match f with
  | Val s => s
  | _ => []
  end.

Section Monitor.
Context {U : Unicode}.

(** The body of the [try] inside the [for] loop. *)
Definition process_event (W : World) (event_url : pystr) : M unit :=
  let current_time := time_time W in
  event_config ← get_config;
  let time_since_last_check := (current_time - last_check event_config)%Z in
  if (interval event_config <=? time_since_last_check)%Z then
    status ← lift (check_event_availability W event_url);
    tell current_time (Checked event_url status);;
    available ← lift (getitem status "available");
    (if truthy available && negb (alert_sent event_config) then
       lift (getitem status "title");;
       let call_sid := make_alert_call W event_url status in
       tell current_time (CallPlaced event_url call_sid);;
       match call_sid with
       | Some sid =>
           if negb (str_eqb sid [])
           then modify (set_call (Val sid) (Val current_time))
           else mret tt
       | None => mret tt
       end
     else mret tt);;
    event_config ← get_config;
    (if field_truthy (last_call_sid event_config) then
       elapsed ← lift (since_call current_time (call_made_at event_config));
       if (120 <? elapsed)%Z then
         let call_sid := field_read (last_call_sid event_config) in
         let answered := check_call_answered W event_url call_sid in
         tell current_time (CallQueried event_url call_sid answered);;
         lift (getitem status "title");;
         if answered
         then modify (set_alert_sent true)
         else modify (set_call PyNone PyNone)
       else mret tt
     else mret tt);;
    modify (set_checked current_time status)
  else mret tt.

(** [try: ... except Exception as e: logger.error(...)] around it. *)
Definition monitor_event (W : World) (event_url : pystr) : M unit :=
  try_except_M (process_event W event_url)
    (fun e => tell (time_time W) (ErrorLogged event_url e)).

(** [for event_url, event_config in self.monitored_events.items()]: an
    exception that leaves the body ends the loop. *)
Fixpoint for_items (body : pystr -> M unit) (d : registry)
  : result unit * registry * list entry :=
  match d with
  | [] => (Ok tt, [], [])
  | (event_url, event_config) :: d' =>
      match body event_url event_config with
      | (Ok _, c, l) =>
          let '(r, d'', l') := for_items body d' in (r, (event_url, c) :: d'', l ++ l')
      | (Raise e, c, l) => (Raise e, (event_url, c) :: d', l)
      end
  end.

(** One iteration of [while self.monitoring]. *)
Definition monitor_iteration (W : World) (d : registry)
  : result unit * registry * list entry :=
  for_items (monitor_event W) d.

(** [monitor_events], for the iterations that run until the flag is
    cleared: one [World] per iteration. *)
Fixpoint monitor_events (Ws : list World) (d : registry)
  : result unit * registry * list entry :=
  match Ws with
  | [] => (Ok tt, d, [])
  | W :: Ws' =>
      match monitor_iteration W d with
      | (Ok _, d', l) =>
          let '(r, d'', l') := monitor_events Ws' d' in (r, d'', l ++ l')
      | (Raise e, d', l) => (Raise e, d', l)
      end
  end.

End Monitor.

(** ** Notions the properties are stated with *)

(** The event an entry of the log is about. *)
Definition action_url (a : action) : pystr :=
  match a with
  | Checked u _ => u
  | CallPlaced u _ => u
  | CallQueried u _ _ => u
  | ErrorLogged u _ => u
  end.

(** The entries of a log about one event, in order. *)
Definition for_url (event_url : pystr) (l : list entry) : list entry :=
  List.filter (fun e => str_eqb (action_url e.2) event_url) l.

(** The iterations of the loop as one event sees them. *)
Fixpoint event_run {U : Unicode} (Ws : list World) (event_url : pystr) (c : event_config)
  : event_config * list entry :=
  match Ws with
  | [] => (c, [])
  | W :: Ws' =>
      let out := monitor_event W event_url c in
      let rest := event_run Ws' event_url out.1.2 in
      (rest.1, out.2 ++ rest.2)
  end.

(** The three states of an event: no call awaits verification and none
    was answered; a call awaits verification; a call was answered. *)
Definition idle (c : event_config) : Prop :=
  field_truthy (last_call_sid c) = false /\ alert_sent c = false.

Definition call_pending (c : event_config) (sid : pystr) (placed_at : Z) : Prop :=
  last_call_sid c = Val sid /\ call_made_at c = Val placed_at /\ alert_sent c = false.

Definition suppressed (c : event_config) : Prop := alert_sent c = true.

(** The purchase-intent and the sold-out phrases, as the text of the
    specification lists them. *)
Definition purchase_phrases : list string :=
  [ "select date and time"; "reserve a spot"; "get tickets"; "buy now";
    "purchase tickets"; "register now" ]%string.

Definition sold_out_phrases : list string :=
  [ "sold out"; "registration closed"; "tickets unavailable"; "event has ended";
    "registration is closed"; "no longer available"; "unavailable"; "sales ended";
    "sale has ended"; "events ended" ]%string.

(** The keys of a status that report what the classifier found. *)
Definition signal_keys : list string :=
  [ "sold_out"; "sold_out_text_found"; "sold_out_elements_found";
    "zero_remaining_found"; "availability_text_found" ]%string.

(** [p] occurs in [text] between two word boundaries. *)
Definition whole_words {U : Unicode} (p text : pystr) : Prop :=
  exists pre post, text = pre ++ p ++ post /\
    word_before (last pre) = false /\ word_at post = false.

(** The check of [event_url] gets the page and parses it into [soup]. *)
Definition fetches (W : World) (event_url : pystr) (soup : Soup) : Prop :=
  exists response,
    session_get W event_url = Ok response /\
    raise_for_status response = Ok tt /\
    beautiful_soup W (content response) = Ok soup.

(** The request fails: [session.get] raises a [RequestException], or the
    response carries an HTTP error code. *)
Definition fetch_failure (W : World) (event_url : pystr) : Prop :=
  (exists msg, session_get W event_url = Raise (RequestException msg)) \/
  (exists response, session_get W event_url = Ok response /\
     (400 <= status_code response < 600)%Z).

Definition is_request_exception (e : exn) : bool :=
  match e with
  | RequestException _ => true
  | _ => false
  end.

(** A status that reports a failure under the given title. *)
Definition error_titled (st : gmap string value) (title : string) : Prop :=
  is_Some (st !! "error") /\
  st !! "available" = Some (VBool false) /\
  st !! "title" = Some (VStr (py title)).

(** ** Concrete pages, worlds and registries *)

(** The tables cut down to ASCII: no letter, digit or space above 127,
    and only A-Z change under [lower].  On the inputs below they agree
    with CPython. *)
Definition ascii_only : Unicode :=
  {| unicode_isalnum := fun _ => false;
     unicode_isspace := fun _ => false;
     unicode_ignorecase := fun _ _ => false;
     str_lower := map ascii_lower |}.

Definition url0 : pystr := py "https://www.eventbrite.com/e/community-day-tickets-1406481517079".
Definition url1 : pystr := py "https://www.eventbrite.com/e/plaza-day-tickets-1416951894259".

Definition now0 : pystr := py "2025-06-01T12:00:00".

(** A page with text only: no heading, no button, no marked element. *)
Definition text_soup (text : pystr) : Soup :=
  {| soup_get_text := text;
     soup_find_h1_title := None; soup_find_h1 := None; soup_find_title := None;
     soup_select := fun _ => [];
     soup_find_all_sold_out := [] |}.

(** An iteration at time [t] in which every page parses to [soup], every
    call placed gets [sid] and every call queried is in [call_status]. *)
Definition page_world (t : Z) (soup : Soup) (sid call_status : string) : World :=
  {| time_time := t;
     session_get := fun u =>
       Ok {| status_code := 200; reason := py "OK"; response_url := u; content := [] |};
     beautiful_soup := fun _ => Ok soup;
     datetime_now := fun _ => now0;
     calls_create := fun _ _ => Ok (py sid);
     calls_fetch := fun _ _ => Ok (py call_status) |}.

(** An iteration in which every request times out. *)
Definition timeout_world (t : Z) : World :=
  {| time_time := t;
     session_get := fun _ => Raise (RequestException (py "Read timed out. (read timeout=15)"));
     beautiful_soup := fun _ => Ok (text_soup []);
     datetime_now := fun _ => now0;
     calls_create := fun _ _ => Ok (py "CA0");
     calls_fetch := fun _ _ => Ok (py "queued") |}.

(** An iteration in which the parser raises. *)
Definition parse_failure_world (t : Z) : World :=
  {| time_time := t;
     session_get := fun u =>
       Ok {| status_code := 200; reason := py "OK"; response_url := u; content := [] |};
     beautiful_soup := fun _ => Raise (OtherException (py "maximum recursion depth exceeded"));
     datetime_now := fun _ => now0;
     calls_create := fun _ _ => Ok (py "CA0");
     calls_fetch := fun _ _ => Ok (py "queued") |}.

Definition newline : pystr := [10%N].
Definition em_dash : pystr := [8212%N].

Definition open_soup : Soup := text_soup (py "Get Tickets").
Definition closed_soup : Soup := text_soup (py "Sold Out").

(** One date sold out, another on sale. *)
Definition get_tickets_soup : Soup :=
  text_soup (py "Saturday: Sold Out. Sunday: Get Tickets").

Definition sold_out_soup : Soup :=
  text_soup (py "Sold Out " ++ em_dash ++ py " registration closed").

(** Three lines of text: "sold out", "budget", "tickets". *)
Definition budget_soup : Soup :=
  text_soup (py "sold out" ++ newline ++ py "budget" ++ newline ++ py "tickets").

Definition resold_soup : Soup := text_soup (py "resold outfits").

(** [<button class="register-button" disabled="">Register</button>] *)
Definition disabled_button : Tag :=
  {| tag_get_text := py "Register";
     tag_class := Some [py "register-button"];
     tag_disabled := Some [] |}.

(** A page whose only content is that button; two of the selectors find it. *)
Definition disabled_button_soup : Soup :=
  {| soup_get_text := py "Register";
     soup_find_h1_title := None; soup_find_h1 := None; soup_find_title := None;
     soup_select := fun selector =>
       if bool_decide (selector = attr_selector "button" "class*=" "register")
          || bool_decide (selector = ".register-button"%string)
       then [disabled_button] else [];
     soup_find_all_sold_out := [] |}.

(** An event with a call placed at 1000 that awaits verification. *)
Definition pending_config : event_config :=
  {| interval := 1800; last_check := 1000; last_status := None; alert_sent := false;
     last_call_sid := Val (py "CA1"); call_made_at := Val 1000%Z |}.

(** The statuses of two of the checks below. *)
Definition timeout_status : gmap string value :=
  error_status url0 (py "Error - Network Issue")
    (RequestException (py "Read timed out. (read timeout=15)")) now0.

Definition closed_status : gmap string value :=
  page_status (U:=ascii_only) url0 closed_soup now0.

(** ** Further notions *)

(** [self.monitored_events.get(event_url)] *)
Fixpoint registry_get (event_url : pystr) (d : registry) : option event_config :=
  match d with
  | [] => None
  | (k, v) :: d' => if str_eqb k event_url then Some v else registry_get event_url d'
  end.

(** A config on which the subtraction of line 319 cannot fail: a call
    id that counts as true comes with something to subtract. *)
Definition well_formed (c : event_config) : Prop :=
  field_truthy (last_call_sid c) = true -> call_made_at c <> PyNone.

(** The registries a program can get: it starts empty, and events are
    added and removed and the loop is run, in any order. *)
Inductive reachable {U : Unicode} : registry -> Prop :=
| reach_empty : reachable []
| reach_add url i d : reachable d -> reachable (add_event url i d)
| reach_remove url d : reachable d -> reachable (remove_event url d)
| reach_run Ws d : reachable d -> reachable (monitor_events Ws d).1.2.

(** In this iteration the check of the event finds it available and the
    gateway takes the call. *)
Definition call_succeeds {U : Unicode} (url : pystr) (W : World) : Prop :=
  exists st sid,
    check_event_availability W url = Ok st /\
    st !! "available" = Some (VBool true) /\
    make_alert_call W url st = Some sid /\ sid <> [].

(** An iteration in which every page parses to [soup] and the gateway
    refuses every call. *)
Definition gateway_down_world (t : Z) (soup : Soup) : World :=
  {| time_time := t;
     session_get := fun u =>
       Ok {| status_code := 200; reason := py "OK"; response_url := u; content := [] |};
     beautiful_soup := fun _ => Ok soup;
     datetime_now := fun _ => now0;
     calls_create := fun _ _ => Raise (OtherException (py "Unable to create record"));
     calls_fetch := fun _ _ => Raise (OtherException (py "Unable to fetch record")) |}.

Definition open_status : gmap string value :=
  page_status (U:=ascii_only) url0 open_soup now0.

Definition zero_left_soup : Soup := text_soup (py "Only 0 tickets remaining").

(** A page with the heading [<h1>  Community Day </h1>]. *)
Definition heading_soup : Soup :=
  {| soup_get_text := py "  Community Day  Get Tickets";
     soup_find_h1_title := None;
     soup_find_h1 := Some {| tag_get_text := py "  Community Day ";
                             tag_class := None; tag_disabled := None |};
     soup_find_title := None;
     soup_select := fun _ => [];
     soup_find_all_sold_out := [] |}.

(** An iteration in which the event [url0] meets every failure there is:
    its request times out, the gateway refuses a call for it, and the
    gateway cannot tell whether any call was answered.  The other events
    get the page [soup], and their calls are placed with the id [sid]. *)
Definition outage_world (t : Z) (soup : Soup) (sid : string) : World :=
  {| time_time := t;
     session_get := fun u =>
       if str_eqb u url0
       then Raise (RequestException (py "Read timed out. (read timeout=15)"))
       else Ok {| status_code := 200; reason := py "OK"; response_url := u; content := [] |};
     beautiful_soup := fun _ => Ok soup;
     datetime_now := fun _ => now0;
     calls_create := fun u _ =>
       if str_eqb u url0 then Raise (OtherException (py "Unable to create record"))
       else Ok (py sid);
     calls_fetch := fun _ _ => Raise (OtherException (py "Unable to fetch record")) |}.

(** The config of a new event after the iteration at 2000 that found it
    on sale and placed the call [CA1] for it. *)
Definition called_config (url : pystr) : event_config :=
  {| interval := 1800; last_check := 2000;
     last_status := Some (page_status (U:=ascii_only) url open_soup now0);
     alert_sent := false;
     last_call_sid := Val (py "CA1"); call_made_at := Val 2000%Z |}.

(** * Properties *)

Section Properties.
Context {U : Unicode}.

(** ** Strings and patterns *)

Lemma starts_with_split p s : starts_with p s = true -> exists post, s = p ++ post.
Proof.
  revert s. induction p as [|a p IH]; intros s H; simpl in *.
  - by exists s.
  - destruct s as [|b s]; [done|]. apply andb_true_iff in H as [H1 H2].
    apply N.eqb_eq in H1 as ->. destruct (IH _ H2) as [post ->]. by exists post.
Qed.

Lemma contains_split p s : contains p s = true -> exists pre post, s = pre ++ p ++ post.
Proof.
  induction s as [|x s IH]; simpl; intros H.
  - rewrite orb_false_r in H. destruct (starts_with_split _ _ H) as [post ->].
    by exists [], post.
  - apply orb_true_iff in H as [H|H].
    + destruct (starts_with_split _ _ H) as [post ->]. by exists [], post.
    + destruct (IH H) as (pre & post & ->). by exists (x :: pre), post.
Qed.

Lemma search_from_unfold ic p prev s :
  search_from ic p prev s =
  match_here ic p prev s ||
  match s with [] => false | x :: s' => search_from ic p (Some x) s' end.
Proof. by destruct s. Qed.

Lemma last_cons_or (x : char) (w : pystr) (prev : option char) :
  match last (x :: w) with Some c => Some c | None => prev end =
  match last w with Some c => Some c | None => Some x end.
Proof.
  destruct w as [|y w]; [done|].
  change (last (x :: y :: w)) with (last (y :: w)).
  destruct (last (y :: w)) eqn:E; [done|]. by apply last_None in E.
Qed.

(** A match that starts after [pre] is found by the search. *)
Lemma search_from_app ic p pre s prev :
  match_here ic p (match last pre with Some c => Some c | None => prev end) s = true ->
  search_from ic p prev (pre ++ s) = true.
Proof.
  revert prev. induction pre as [|x pre IH]; intros prev H.
  - rewrite search_from_unfold. simpl in *. by rewrite H.
  - simpl. rewrite IH; [apply orb_true_r|]. by rewrite last_cons_or in H.
Qed.

Lemma chr_match_refl ic c : chr_match ic c c = true.
Proof. unfold chr_match. by rewrite N.eqb_refl. Qed.

(** A run of literals consumes its own text. *)
Lemma match_here_chars ic w p prev s :
  match_here ic (map Chr w ++ p) prev (w ++ s) =
  match_here ic p (match last w with Some c => Some c | None => prev end) s.
Proof.
  revert prev. induction w as [|c w IH]; intros prev; [done|].
  simpl. rewrite chr_match_refl, IH. simpl. by rewrite (last_cons_or c w prev).
Qed.

Lemma match_bounded w prev post :
  word_before prev = false -> word_at (w ++ post) = true ->
  word_before (last w) = true -> word_at post = false ->
  match_here false (Boundary :: map Chr w ++ [Boundary]) prev (w ++ post) = true.
Proof.
  intros H1 H2 H3 H4.
  change (match_here false (Boundary :: map Chr w ++ [Boundary]) prev (w ++ post))
    with (xorb (word_before prev) (word_at (w ++ post))
          && match_here false (map Chr w ++ [Boundary]) prev (w ++ post)).
  rewrite H1, H2, match_here_chars. simpl.
  destruct (last w) as [c|] eqn:E; [|done].
  simpl in H3. unfold word_before. by rewrite H3, H4.
Qed.

(** Each sold-out pattern is its phrase between two [\b]. *)
Lemma sold_out_patterns_phrases :
  map re_compile sold_out_patterns =
  map (fun ph => Boundary :: map Chr (py ph) ++ [Boundary]) sold_out_phrases.
Proof. reflexivity. Qed.

Lemma sold_out_phrase_found (soup : Soup) phrase :
  In phrase sold_out_phrases -> whole_words (py phrase) (page_text soup) ->
  is_sold_out_text soup = true.
Proof.
  intros Hin (pre & post & Htext & Hpre & Hpost).
  unfold is_sold_out_text, re_search. rewrite Htext.
  assert (Hm : exists p, In p (map re_compile sold_out_patterns) /\
             match_here false p (last pre) (py phrase ++ post) = true).
  { rewrite sold_out_patterns_phrases.
    eexists. split; [apply in_map, Hin|].
    apply match_bounded; auto; simpl in Hin; intuition subst; reflexivity. }
  destruct Hm as (p & Hp & Hm). apply in_map_iff in Hp as (pat & <- & Hpat).
  apply existsb_exists. exists pat. split; [done|].
  apply search_from_app. by destruct (last pre).
Qed.

(** A purchase-intent phrase anywhere in the text is found by its pattern:
    a single space is a run of whitespace. *)
Lemma purchase_phrase_found (soup : Soup) phrase :
  In phrase purchase_phrases -> contains (py phrase) (page_text soup) = true ->
  has_availability_text soup = true.
Proof.
  intros Hin Hc. destruct (contains_split _ _ Hc) as (pre & post & Htext).
  unfold has_availability_text, re_search_ignorecase. rewrite Htext.
  apply existsb_exists. simpl in Hin.
  destruct Hin as [<-|[<-|[<-|[<-|[<-|[<-|[]]]]]]];
    [exists "select\s+date\s+and\s+time"%string
    |exists "reserve\s+a\s+spot"%string
    |exists "get\s+tickets"%string
    |exists "buy\s+now"%string
    |exists "purchase\s+tickets"%string
    |exists "register\s+now"%string];
    (split; [simpl; tauto|apply search_from_app; reflexivity]).
Qed.

(** ** The check *)

Lemma check_page_fetches W url soup :
  fetches W url soup ->
  check_page W url = Ok (page_status url soup (datetime_now W url)).
Proof.
  intros (r & Hget & Hst & Hsoup). unfold check_page, mbind, result_bind.
  by rewrite Hget, Hst, Hsoup.
Qed.

Lemma check_fetches W url soup :
  fetches W url soup ->
  check_event_availability W url = Ok (page_status url soup (datetime_now W url)).
Proof.
  intros H. unfold check_event_availability. by rewrite (check_page_fetches _ _ _ H).
Qed.

Lemma check_raises W url e :
  check_page W url = Raise e ->
  check_event_availability W url =
    Ok (error_status url
          (py (if is_request_exception e then "Error - Network Issue"
               else "Error - Parse Issue")) e (datetime_now W url)).
Proof.
  intros H. unfold check_event_availability. rewrite H. by destruct e.
Qed.

(** The check ends in one of two ways. *)
Lemma check_cases W url :
  (exists soup, fetches W url soup /\
     check_event_availability W url = Ok (page_status url soup (datetime_now W url))) \/
  (exists e, check_page W url = Raise e /\
     check_event_availability W url =
       Ok (error_status url
             (py (if is_request_exception e then "Error - Network Issue"
                  else "Error - Parse Issue")) e (datetime_now W url))).
Proof.
  destruct (check_page W url) as [st|e] eqn:Hp.
  - left. unfold check_page, mbind, result_bind, mret, result_ret in Hp.
    destruct (session_get W url) as [r|] eqn:Hget; [|done].
    destruct (raise_for_status r) as [[]|] eqn:Hst; [|done].
    destruct (beautiful_soup W (content r)) as [soup|] eqn:Hsoup; [|done].
    assert (Hf : fetches W url soup) by (by exists r).
    exists soup. split; [done|]. by apply check_fetches.
  - right. exists e. split; [done|]. by apply check_raises.
Qed.

Lemma error_status_titled url title e now :
  error_titled (error_status url (py title) e now) title.
Proof. repeat split. by eexists. Qed.

Lemma check_returns W url :
  exists st title available,
    check_event_availability W url = Ok st /\
    st !! "title" = Some (VStr title) /\
    st !! "available" = Some (VBool available).
Proof.
  destruct (check_cases W url) as [(soup & _ & ->)|(e & _ & ->)];
    eexists _, _, _; (split; [reflexivity|]); split; reflexivity.
Qed.

Lemma raise_for_status_error r :
  (400 <= status_code r < 600)%Z ->
  exists msg, raise_for_status r = Raise (RequestException msg).
Proof.
  intros Hcode. unfold raise_for_status.
  destruct (400 <=? status_code r)%Z eqn:E1; [|lia].
  destruct (status_code r <? 500)%Z eqn:E2; simpl; [by eexists|].
  destruct (500 <=? status_code r)%Z eqn:E3; [|lia].
  destruct (status_code r <? 600)%Z eqn:E4; [|lia].
  by eexists.
Qed.

(** C6. The check never raises: it returns a status whatever the world
    does.  When the request fails (the connection, a timeout, an HTTP
    error code), the status has [error] set, [available] false and the
    title "Error - Network Issue"; when anything else raises in the
    check, it has [error] set, [available] false and the title
    "Error - Parse Issue". *)
Theorem C6_check_always_returns_a_status W url :
  exists st,
    check_event_availability W url = Ok st /\
    (fetch_failure W url -> error_titled st "Error - Network Issue") /\
    (forall e, check_page W url = Raise e -> is_request_exception e = false ->
       error_titled st "Error - Parse Issue").
Proof.
  destruct (check_cases W url) as [(soup & Hf & Hc)|(e & He & Hc)].
  - eexists. split; [exact Hc|].
    rewrite (check_page_fetches _ _ _ Hf). destruct Hf as (r & Hget & Hst & _).
    split; [|done].
    intros [(msg & Hm)|(r' & Hr' & Hcode)]; [congruence|].
    rewrite Hget in Hr'. injection Hr' as <-.
    destruct (raise_for_status_error r Hcode) as [msg Hmsg]. congruence.
  - eexists. split; [exact Hc|]. split.
    + intros Hfail.
      assert (Hreq : is_request_exception e = true).
      { unfold check_page, mbind, result_bind in He.
        destruct Hfail as [(msg & Hm)|(r & Hr & Hcode)].
        - rewrite Hm in He. by injection He as <-.
        - rewrite Hr in He. destruct (raise_for_status_error r Hcode) as [msg Hmsg].
          rewrite Hmsg in He. by injection He as <-. }
      rewrite Hreq. apply error_status_titled.
    + intros e' He' Hnot. rewrite He in He'. injection He' as <-.
      rewrite Hnot. apply error_status_titled.
Qed.

(** C7, amended. In a status the check returns with [error] present,
    [available] is false and no signal key is present at all: the flags
    are missing from the dict, they are not stored as false. *)
Theorem C7_error_status_carries_no_signal W url st :
  check_event_availability W url = Ok st ->
  is_Some (st !! "error") ->
  st !! "available" = Some (VBool false) /\
  forall key, In key signal_keys -> st !! key = None.
Proof.
  intros Hc Herr.
  destruct (check_cases W url) as [(soup & _ & Hc')|(e & _ & Hc')];
    rewrite Hc in Hc'; injection Hc' as ->.
  - by destruct Herr as [v Hv].
  - split; [done|]. intros key Hk. simpl in Hk. intuition subst; reflexivity.
Qed.

(** C10. In a status the check returns without [error], [available] and
    [sold_out] are never both true. *)
Theorem C10_available_excludes_sold_out W url st :
  check_event_availability W url = Ok st ->
  st !! "error" = None ->
  st !! "available" = Some (VBool true) ->
  st !! "sold_out" = Some (VBool false).
Proof.
  intros Hc Herr Hav.
  destruct (check_cases W url) as [(soup & _ & Hc')|(e & _ & Hc')];
    rewrite Hc in Hc'; injection Hc' as ->; [|done].
  change (Some (VBool (is_available soup)) = Some (VBool true)) in Hav.
  change (Some (VBool (is_definitely_sold_out soup)) = Some (VBool false)).
  injection Hav as Hav. unfold is_available in Hav.
  apply andb_true_iff in Hav as [_ Hav]. apply negb_true_iff in Hav. by rewrite Hav.
Qed.

(** C2. A page whose text (in lower case, as the classifier reads it)
    contains a purchase-intent phrase is reported available, whatever
    sold-out phrase, marked element or "0 remaining" the page also has. *)
Theorem C2_purchase_intent_is_available W url soup phrase :
  fetches W url soup ->
  In phrase purchase_phrases ->
  contains (py phrase) (page_text soup) = true ->
  exists st,
    check_event_availability W url = Ok st /\
    st !! "available" = Some (VBool true) /\
    st !! "availability_text_found" = Some (VBool true).
Proof.
  intros Hf Hin Hc. eexists. split; [by apply check_fetches|].
  pose proof (purchase_phrase_found soup phrase Hin Hc) as Ht.
  change (Some (VBool (is_available soup)) = Some (VBool true) /\
          Some (VBool (has_availability_text soup)) = Some (VBool true)).
  unfold is_available, is_definitely_sold_out. rewrite Ht. simpl.
  by rewrite andb_false_r.
Qed.

Lemma no_eligible_button (soup : Soup) :
  (forall button, In button (buttons soup) ->
     has_ticket_text button && negb (is_disabled button) = false) ->
  is_available soup = has_availability_text soup && negb (is_definitely_sold_out soup).
Proof.
  intros Hb. unfold is_available, available_buttons.
  induction (buttons soup) as [|b l IH]; simpl.
  - by rewrite orb_false_r.
  - rewrite Hb by (by left). apply IH. intros b' Hb'. apply Hb. by right.
Qed.

(** C3, amended. When a sold-out phrase stands in the page text between
    word boundaries, no purchase-intent pattern matches the text (the
    words of a phrase with any whitespace between them, anywhere), and no
    button is eligible, the page is reported not available, with the
    sold-out text flag and [sold_out] true. *)
Theorem C3_sold_out_page_is_unavailable W url soup phrase :
  fetches W url soup ->
  In phrase sold_out_phrases ->
  whole_words (py phrase) (page_text soup) ->
  has_availability_text soup = false ->
  (forall button, In button (buttons soup) ->
     has_ticket_text button && negb (is_disabled button) = false) ->
  exists st,
    check_event_availability W url = Ok st /\
    st !! "available" = Some (VBool false) /\
    st !! "sold_out_text_found" = Some (VBool true) /\
    st !! "sold_out" = Some (VBool true).
Proof.
  intros Hf Hin Hw Hav Hb. eexists. split; [by apply check_fetches|].
  pose proof (sold_out_phrase_found soup phrase Hin Hw) as Hs.
  change (Some (VBool (is_available soup)) = Some (VBool false) /\
          Some (VBool (is_sold_out_text soup)) = Some (VBool true) /\
          Some (VBool (is_definitely_sold_out soup)) = Some (VBool true)).
  rewrite (no_eligible_button soup Hb). unfold is_definitely_sold_out. by rewrite Hs, Hav.
Qed.

(** The buttons counted as available are those with a ticket word in
    their text that the source does not find disabled. *)
Lemma available_buttons_spec (soup : Soup) button :
  In button (available_buttons soup) <->
  In button (buttons soup) /\ has_ticket_text button = true /\ is_disabled button = false.
Proof.
  unfold available_buttons. rewrite filter_In, andb_true_iff, negb_true_iff. tauto.
Qed.

(** ** The monitoring loop *)

Ltac run_event :=
  unfold monitor_event, try_except_M, process_event, mbind, M_bind, mret, M_ret,
    get_config, modify, tell, lift, getitem.

Ltac split_cases :=
  repeat split; intros;
  repeat match goal with
    | H : _ \/ _ |- _ => destruct H
    | H : False |- _ => destruct H
    | H : ex _ |- _ => destruct H
    end; simplify_eq; simpl; auto; try lia; try (eexists; left; reflexivity).

(** What one pass of the loop body can do to an event, whatever the world
    answers. *)
Lemma monitor_event_spec W url c :
  let out := monitor_event W url c in
  let t := time_time W in
  out.1.1 = Ok tt /\
  interval out.1.2 = interval c /\
  (alert_sent c = true -> alert_sent out.1.2 = true) /\
  (last_check out.1.2 = last_check c \/
   last_check out.1.2 = t /\ (interval c <= t - last_check c)%Z) /\
  (forall e, In e out.2 -> e.1 = t /\ action_url e.2 = url) /\
  (forall s, In (t, CallPlaced url s) out.2 ->
     (interval c <= t - last_check c)%Z /\ alert_sent c = false) /\
  ((exists st, In (t, Checked url st) out.2) <-> (interval c <= t - last_check c)%Z) /\
  (forall sid, In (t, CallQueried url sid true) out.2 -> alert_sent out.1.2 = true) /\
  (forall sid a, In (t, CallQueried url sid a) out.2 ->
     a = check_call_answered W url sid /\
     field_truthy (last_call_sid c) = true /\ field_read (last_call_sid c) = sid /\
     exists elapsed, since_call t (call_made_at c) = Ok elapsed /\ (120 < elapsed)%Z) /\
  ((interval c <= t - last_check c)%Z ->
     last_check out.1.2 = t \/ exists e, In (t, ErrorLogged url e) out.2).
Proof.
  destruct (check_returns W url) as (st & title & a & Hc & Ht & Ha).
  cbv zeta. run_event. rewrite Hc, Ha, Ht.
  destruct (interval c <=? time_time W - last_check c)%Z eqn:Hdue.
  2:{ simpl. apply Z.leb_gt in Hdue.
      repeat split; auto; try (intros; done); try (intros [? []]); try lia. }
  apply Z.leb_le in Hdue.
  destruct a, (alert_sent c) eqn:Hsent; simpl.
  all: repeat (case_match; simpl in * ); simplify_eq; simpl.
  all: repeat match goal with
         | H : (_ <? _)%Z = true |- _ => apply Z.ltb_lt in H
         end.
  all: unfold set_call in *; simpl in *; simplify_eq.
  all: split_cases.
  all: try (exfalso; lia).
  all: try (right; eexists; simpl; repeat first [left; reflexivity|right]; fail).
  all: eexists; split; [first [eassumption|reflexivity]|lia].
Qed.

Lemma monitor_event_ok W url c : (monitor_event W url c).1.1 = Ok tt.
Proof. apply monitor_event_spec. Qed.

(** One iteration treats every event on its own. *)
Lemma monitor_iteration_map W d :
  monitor_iteration W d =
  (Ok tt,
   map (fun kv => (kv.1, (monitor_event W kv.1 kv.2).1.2)) d,
   flat_map (fun kv => (monitor_event W kv.1 kv.2).2) d).
Proof.
  unfold monitor_iteration. induction d as [|[url c] d IH]; [done|].
  simpl. pose proof (monitor_event_ok W url c) as Hok.
  destruct (monitor_event W url c) as [[r c'] l]. simpl in *. subst r.
  by rewrite IH.
Qed.

Lemma monitor_iteration_app W d1 d2 :
  monitor_iteration W (d1 ++ d2) =
  (Ok tt,
   (monitor_iteration W d1).1.2 ++ (monitor_iteration W d2).1.2,
   (monitor_iteration W d1).2 ++ (monitor_iteration W d2).2).
Proof. rewrite !monitor_iteration_map. simpl. by rewrite map_app, flat_map_app. Qed.

Lemma monitor_events_unfold W Ws d :
  monitor_events (W :: Ws) d =
  let rest := monitor_events Ws (monitor_iteration W d).1.2 in
  (rest.1.1, rest.1.2, (monitor_iteration W d).2 ++ rest.2).
Proof.
  simpl. rewrite monitor_iteration_map. simpl.
  by destruct (monitor_events Ws _) as [[r d'] l].
Qed.

Lemma monitor_events_ok Ws d : (monitor_events Ws d).1.1 = Ok tt.
Proof.
  revert d. induction Ws as [|W Ws IH]; intros d; [done|].
  rewrite monitor_events_unfold. simpl. apply IH.
Qed.

Lemma event_run_unfold W Ws url c :
  event_run (W :: Ws) url c =
  let out := monitor_event W url c in
  let rest := event_run Ws url out.1.2 in
  (rest.1, out.2 ++ rest.2).
Proof. done. Qed.

(** The registry after a run: every event has gone through its own run. *)
Lemma monitor_events_registry Ws d :
  (monitor_events Ws d).1.2 = map (fun kv => (kv.1, (event_run Ws kv.1 kv.2).1)) d.
Proof.
  revert d. induction Ws as [|W Ws IH]; intros d.
  - simpl. induction d as [|[u c] d IHd]; simpl; congruence.
  - rewrite monitor_events_unfold. simpl. rewrite IH, monitor_iteration_map. simpl.
    rewrite map_map. done.
Qed.

Lemma for_url_app url l1 l2 : for_url url (l1 ++ l2) = for_url url l1 ++ for_url url l2.
Proof. apply List.filter_app. Qed.

Lemma for_url_own W url c : for_url url (monitor_event W url c).2 = (monitor_event W url c).2.
Proof.
  destruct (monitor_event_spec W url c) as (_ & _ & _ & _ & H & _).
  unfold for_url. induction ((monitor_event W url c).2) as [|e l IH]; [done|].
  simpl. destruct (H e) as [_ ->]; [by left|].
  unfold str_eqb. rewrite bool_decide_eq_true_2 by done.
  f_equal. apply IH. intros e' He'. apply H. by right.
Qed.

Lemma for_url_other W url url' c :
  url' <> url -> for_url url (monitor_event W url' c).2 = [].
Proof.
  intros Hne. destruct (monitor_event_spec W url' c) as (_ & _ & _ & _ & H & _).
  unfold for_url. induction ((monitor_event W url' c).2) as [|e l IH]; [done|].
  simpl. destruct (H e) as [_ ->]; [by left|].
  unfold str_eqb. rewrite bool_decide_eq_false_2 by done.
  apply IH. intros e' He'. apply H. by right.
Qed.

(** The log of an iteration, for an event of the registry, is the log of
    that event's own pass through the loop body. *)
Lemma for_url_iteration W d url c :
  NoDup (map fst d) -> In (url, c) d ->
  for_url url (monitor_iteration W d).2 = (monitor_event W url c).2.
Proof.
  rewrite monitor_iteration_map. simpl.
  induction d as [|[u c'] d IH]; intros Hnd Hin; [done|].
  simpl in *. apply NoDup_cons in Hnd as [Hu Hnd]. rewrite for_url_app.
  destruct Hin as [Heq|Hin].
  - injection Heq as -> ->. rewrite for_url_own.
    assert (Hrest : for_url url (flat_map (fun kv => (monitor_event W kv.1 kv.2).2) d) = []).
    { clear IH Hnd. induction d as [|[u' c''] d IHd]; [done|].
      simpl. rewrite for_url_app, for_url_other, IHd; [done| |].
      - intros Hx. apply Hu. right. done.
      - intros ->. apply Hu. left. }
    by rewrite Hrest, app_nil_r.
  - rewrite for_url_other, IH; [done|done|done|].
    intros ->. apply Hu. apply list_elem_of_In. apply (in_map fst) in Hin. done.
Qed.

Lemma iteration_keys W d : map fst (monitor_iteration W d).1.2 = map fst d.
Proof. rewrite monitor_iteration_map. simpl. rewrite map_map. done. Qed.

Lemma iteration_lookup W d url c :
  In (url, c) d -> In (url, (monitor_event W url c).1.2) (monitor_iteration W d).1.2.
Proof.
  intros Hin. rewrite monitor_iteration_map. simpl.
  apply in_map_iff. by exists (url, c).
Qed.

(** The log of a run, for an event of the registry, is the log of that
    event's own run. *)
Lemma for_url_run Ws d url c :
  NoDup (map fst d) -> In (url, c) d ->
  for_url url (monitor_events Ws d).2 = (event_run Ws url c).2.
Proof.
  revert d c. induction Ws as [|W Ws IH]; intros d c Hnd Hin; [done|].
  rewrite monitor_events_unfold, event_run_unfold. simpl.
  rewrite for_url_app, (for_url_iteration W d url c Hnd Hin). f_equal.
  apply IH; [by rewrite iteration_keys|by apply iteration_lookup].
Qed.

Lemma run_lookup Ws d url c :
  In (url, c) d -> In (url, (event_run Ws url c).1) (monitor_events Ws d).1.2.
Proof.
  intros Hin. rewrite monitor_events_registry. apply in_map_iff. by exists (url, c).
Qed.

Lemma in_for_url url e l : In e l -> action_url e.2 = url -> In e (for_url url l).
Proof.
  intros Hin Hu. apply filter_In. split; [done|].
  unfold str_eqb. by apply bool_decide_eq_true_2.
Qed.

(** Once an event was checked at [t0] or later, a later call for it comes
    no sooner than its interval after [t0]. *)
Lemma event_run_calls_spaced Ws url c t0 :
  (0 <= interval c)%Z ->
  (t0 <= last_check c)%Z ->
  forall t s, In (t, CallPlaced url s) (event_run Ws url c).2 ->
    (interval c <= t - t0)%Z.
Proof.
  revert c. induction Ws as [|W Ws IH]; intros c Hpos Hc t s Hin; [done|].
  rewrite event_run_unfold in Hin. simpl in Hin. apply in_app_or in Hin.
  destruct (monitor_event_spec W url c) as (_ & Hi & _ & Hl & Ht & Hcall & _).
  destruct Hin as [Hin|Hin].
  - destruct (Ht _ Hin) as [Het _]. simpl in Het. subst t.
    destruct (Hcall _ Hin) as [Hdue _]. lia.
  - rewrite <- Hi. eapply (IH (monitor_event W url c).1.2); [lia| |exact Hin].
    destruct Hl as [->|[-> Hdue]]; lia.
Qed.

(** A suppressed event stays suppressed and gets no call. *)
Lemma event_run_suppressed Ws url c :
  alert_sent c = true ->
  alert_sent (event_run Ws url c).1 = true /\
  forall t s, ~ In (t, CallPlaced url s) (event_run Ws url c).2.
Proof.
  revert c. induction Ws as [|W Ws IH]; intros c Hc; [by split; [|intros ? ? []]|].
  rewrite event_run_unfold. simpl.
  destruct (monitor_event_spec W url c) as (_ & _ & Hs & _ & Ht & Hcall & _).
  destruct (IH _ (Hs Hc)) as [IH1 IH2]. split; [done|].
  intros t s Hin. apply in_app_or in Hin as [Hin|Hin]; [|by apply (IH2 t s)].
  destruct (Ht _ Hin) as [Het _]. simpl in Het. subst t.
  destruct (Hcall _ Hin) as [_ Hf]. congruence.
Qed.

Lemma monitor_event_places_call W url c st sid :
  idle c ->
  (interval c <= time_time W - last_check c)%Z ->
  check_event_availability W url = Ok st ->
  st !! "available" = Some (VBool true) ->
  make_alert_call W url st = Some sid ->
  sid <> [] ->
  monitor_event W url c =
    (Ok tt,
     set_checked (time_time W) st (set_call (Val sid) (Val (time_time W)) c),
     [(time_time W, Checked url st); (time_time W, CallPlaced url (Some sid))]).
Proof.
  intros [Hidle Hsent] Hdue Hc Ha Hcall Hsid.
  destruct (check_returns W url) as (st' & title & a & Hc' & Ht & _).
  rewrite Hc in Hc'. injection Hc' as <-.
  run_event. rewrite Hc, Ha, Ht, Hsent, Hcall.
  apply Z.leb_le in Hdue. rewrite Hdue. simpl.
  assert (Hne : str_eqb sid [] = false) by (by apply bool_decide_eq_false_2).
  rewrite Hne. simpl. rewrite ?Hne. simpl. rewrite Z.sub_diag. simpl. done.
Qed.

(** C1, amended. When an idle event is checked, found available, and the
    call is placed, the config records the call id and the time of the
    call and the event is not suppressed; that iteration places this one
    call and verifies nothing; and, the interval not being negative, in
    any further run a later call for the event comes no sooner than the
    event's check interval after the first (so not before 120 seconds
    when the interval is at least 120). *)
Theorem C1_call_then_interval W Ws d url c st sid :
  NoDup (map fst d) -> In (url, c) d ->
  idle c ->
  (interval c <= time_time W - last_check c)%Z ->
  check_event_availability W url = Ok st ->
  st !! "available" = Some (VBool true) ->
  make_alert_call W url st = Some sid ->
  sid <> [] ->
  (0 <= interval c)%Z ->
  let first := monitor_iteration W d in
  let later := monitor_events Ws first.1.2 in
  (exists c', In (url, c') first.1.2 /\ call_pending c' sid (time_time W)) /\
  for_url url first.2 =
    [(time_time W, Checked url st); (time_time W, CallPlaced url (Some sid))] /\
  (forall t s, In (t, CallPlaced url s) later.2 ->
     (interval c <= t - time_time W)%Z /\
     ((120 <= interval c)%Z -> (120 <= t - time_time W)%Z)).
Proof.
  intros Hnd Hin Hidle Hdue Hc Ha Hcall Hsid Hpos first later.
  pose proof (monitor_event_places_call W url c st sid Hidle Hdue Hc Ha Hcall Hsid) as Hev.
  pose proof (iteration_lookup W d url c Hin) as Hin'. rewrite Hev in Hin'. simpl in Hin'.
  set (c1 := set_checked (time_time W) st (set_call (Val sid) (Val (time_time W)) c)) in *.
  split; [|split].
  - eexists. split; [exact Hin'|]. destruct Hidle as [_ Hs]. by repeat split.
  - unfold first. rewrite (for_url_iteration W d url c Hnd Hin). by rewrite Hev.
  - intros t s Hcalled.
    apply (in_for_url url) in Hcalled; [|done].
    unfold later in Hcalled.
    rewrite (for_url_run Ws first.1.2 url c1) in Hcalled;
      [|by unfold first; rewrite iteration_keys|exact Hin'].
    apply (event_run_calls_spaced Ws url c1 (time_time W)) in Hcalled;
      [|done|simpl; lia].
    simpl in Hcalled. lia.
Qed.

Lemma check_call_answered_true W url sid :
  check_call_answered W url sid = true ->
  calls_fetch W url sid = Ok (py "completed") \/
  calls_fetch W url sid = Ok (py "in-progress").
Proof.
  unfold check_call_answered. destruct (calls_fetch W url sid) as [status|]; [|done].
  simpl. rewrite orb_false_r. intros H. apply orb_true_iff in H as [H|H];
    apply bool_decide_eq_true_1 in H; subst; auto.
Qed.

(** C5. Once a verification finds the call answered (the gateway reports
    it completed or in progress) the event is suppressed for good: it is
    suppressed after that iteration and after any further run of the
    loop, and no call is placed for it again, whatever the later checks
    find.  The verified call is the one the config recorded, placed more
    than 120 seconds before. *)
Theorem C5_answered_call_suppresses W Ws d url c sid :
  NoDup (map fst d) -> In (url, c) d ->
  In (time_time W, CallQueried url sid true) (monitor_iteration W d).2 ->
  let first := monitor_iteration W d in
  let later := monitor_events Ws first.1.2 in
  (field_read (last_call_sid c) = sid /\
   (calls_fetch W url sid = Ok (py "completed") \/
    calls_fetch W url sid = Ok (py "in-progress")) /\
   exists elapsed,
     since_call (time_time W) (call_made_at c) = Ok elapsed /\ (120 < elapsed)%Z) /\
  (exists c', In (url, c') first.1.2 /\ suppressed c') /\
  (exists c', In (url, c') later.1.2 /\ suppressed c') /\
  (forall t s, ~ In (t, CallPlaced url s) later.2).
Proof.
  intros Hnd Hin Hq first later.
  apply (in_for_url url) in Hq; [|done].
  rewrite (for_url_iteration W d url c Hnd Hin) in Hq.
  destruct (monitor_event_spec W url c) as (_ & _ & _ & _ & _ & _ & _ & Hans & Hver & _).
  pose proof (Hans _ Hq) as Hs.
  destruct (Hver _ _ Hq) as (Hans' & _ & Hsid & Hel).
  symmetry in Hans'. apply check_call_answered_true in Hans'.
  pose proof (iteration_lookup W d url c Hin) as Hin'.
  set (c1 := (monitor_event W url c).1.2) in *.
  destruct (event_run_suppressed Ws url c1 Hs) as [Hs' Hnone].
  split; [done|]. split; [by eexists|]. split.
  - eexists. split; [apply run_lookup, Hin'|done].
  - intros t s Hcalled. apply (in_for_url url) in Hcalled; [|done].
    unfold later in Hcalled.
    rewrite (for_url_run Ws first.1.2 url c1) in Hcalled;
      [|by unfold first; rewrite iteration_keys|exact Hin'].
    by apply (Hnone t s).
Qed.

Lemma monitor_event_raises W url c e c_e l_e :
  process_event W url c = (Raise e, c_e, l_e) ->
  monitor_event W url c = (Ok tt, c_e, l_e ++ [(time_time W, ErrorLogged url e)]).
Proof. intros H. unfold monitor_event, try_except_M. by rewrite H. Qed.

Lemma monitor_iteration_cons W url c d :
  monitor_iteration W ((url, c) :: d) =
  (Ok tt,
   (url, (monitor_event W url c).1.2) :: (monitor_iteration W d).1.2,
   (monitor_event W url c).2 ++ (monitor_iteration W d).2).
Proof. by rewrite !monitor_iteration_map. Qed.

End Properties.

(** * The properties at concrete inputs *)

(** C1 on a new event with the default interval: the call placed at 2000
    is followed by none before 3800. *)
Lemma C1_witness :
  let W := page_world 2000 open_soup "CA1" "queued" in
  let Ws := [page_world 3800 open_soup "CA2" "queued"] in
  let d := add_event url0 1800 [] in
  let first := monitor_iteration (U:=ascii_only) W d in
  let later := monitor_events (U:=ascii_only) Ws first.1.2 in
  (exists c', In (url0, c') first.1.2 /\ call_pending c' (py "CA1") 2000) /\
  for_url url0 first.2 =
    [(2000%Z, Checked url0 (page_status (U:=ascii_only) url0 open_soup now0));
     (2000%Z, CallPlaced url0 (Some (py "CA1")))] /\
  (forall t s, In (t, CallPlaced url0 s) later.2 ->
     (1800 <= t - 2000)%Z /\ ((120 <= 1800)%Z -> (120 <= t - 2000)%Z)).
Proof.
  apply (C1_call_then_interval (U:=ascii_only)
           (page_world 2000 open_soup "CA1" "queued")
           [page_world 3800 open_soup "CA2" "queued"]
           (add_event url0 1800 []) url0 (new_event 1800)
           (page_status (U:=ascii_only) url0 open_soup now0) (py "CA1")).
  - apply NoDup_singleton.
  - left. reflexivity.
  - split; reflexivity.
  - vm_compute. discriminate.
  - reflexivity.
  - reflexivity.
  - reflexivity.
  - discriminate.
  - simpl. lia.
Defined.

(** C1 as stated fails when the interval is under 120 seconds: an event
    checked every 60 seconds gets a second call 75 seconds after the
    first, while the first still awaits verification. *)
Lemma C1_second_call_after_75_seconds :
  let W1 := page_world 1000 open_soup "CA1" "queued" in
  let W2 := page_world 1075 open_soup "CA2" "queued" in
  let d := add_event url0 60 [] in
  let first := monitor_iteration (U:=ascii_only) W1 d in
  let later := monitor_events (U:=ascii_only) [W2] first.1.2 in
  idle (new_event 60) /\
  In (url0, new_event 60) d /\
  for_url url0 first.2 =
    [(1000%Z, Checked url0 (page_status (U:=ascii_only) url0 open_soup now0));
     (1000%Z, CallPlaced url0 (Some (py "CA1")))] /\
  (exists c', In (url0, c') first.1.2 /\ call_pending c' (py "CA1") 1000) /\
  In (1075%Z, CallPlaced url0 (Some (py "CA2"))) later.2 /\
  (1075 - 1000 < 120)%Z.
Proof.
  cbv zeta. split; [by split|]. split; [by left|]. split; [reflexivity|].
  split.
  - eexists. split; [left; reflexivity|]. by repeat split.
  - split; [|lia]. vm_compute. right. left. reflexivity.
Qed.

(** C2 on a page that says "Sold Out" for one date and "Get Tickets" for
    another. *)
Lemma C2_witness :
  exists st,
    check_event_availability (U:=ascii_only)
      (page_world 1000 get_tickets_soup "CA1" "queued") url0 = Ok st /\
    st !! "available" = Some (VBool true) /\
    st !! "availability_text_found" = Some (VBool true).
Proof.
  apply (C2_purchase_intent_is_available (U:=ascii_only)
           (page_world 1000 get_tickets_soup "CA1" "queued") url0
           get_tickets_soup "get tickets").
  - eexists. repeat split; reflexivity.
  - vm_compute. tauto.
  - reflexivity.
Defined.

(** C3 on the page "Sold Out - registration closed" with no control. *)
Lemma C3_witness :
  exists st,
    check_event_availability (U:=ascii_only)
      (page_world 1000 sold_out_soup "CA1" "queued") url0 = Ok st /\
    st !! "available" = Some (VBool false) /\
    st !! "sold_out_text_found" = Some (VBool true) /\
    st !! "sold_out" = Some (VBool true).
Proof.
  apply (C3_sold_out_page_is_unavailable (U:=ascii_only)
           (page_world 1000 sold_out_soup "CA1" "queued") url0
           sold_out_soup "sold out").
  - eexists. repeat split; reflexivity.
  - vm_compute. tauto.
  - exists [], (py " " ++ em_dash ++ py " registration closed").
    repeat split; reflexivity.
  - reflexivity.
  - intros button [].
Defined.

(** C3 as stated fails twice.  The text "sold out / budget / tickets" has a
    sold-out phrase and none of the purchase-intent phrases, yet the
    pattern [get\s+tickets] matches across the line break and the page is
    reported available.  The text "resold outfits" contains "sold out",
    yet not between word boundaries, and no sold-out flag is set. *)
Lemma C3_substring_is_not_enough :
  (contains (py "sold out") (page_text (U:=ascii_only) budget_soup) = true /\
   (forall phrase, In phrase purchase_phrases ->
      contains (py phrase) (page_text (U:=ascii_only) budget_soup) = false) /\
   buttons budget_soup = [] /\
   check_event_availability (U:=ascii_only)
     (page_world 1000 budget_soup "CA1" "queued") url0
   = Ok (page_status (U:=ascii_only) url0 budget_soup now0) /\
   page_status (U:=ascii_only) url0 budget_soup now0 !! "available" = Some (VBool true)) /\
  (contains (py "sold out") (page_text (U:=ascii_only) resold_soup) = true /\
   (forall phrase, In phrase purchase_phrases ->
      contains (py phrase) (page_text (U:=ascii_only) resold_soup) = false) /\
   buttons resold_soup = [] /\
   check_event_availability (U:=ascii_only)
     (page_world 1000 resold_soup "CA1" "queued") url0
   = Ok (page_status (U:=ascii_only) url0 resold_soup now0) /\
   page_status (U:=ascii_only) url0 resold_soup now0 !! "sold_out_text_found"
   = Some (VBool false) /\
   page_status (U:=ascii_only) url0 resold_soup now0 !! "sold_out_elements_found"
   = Some (VBool false) /\
   page_status (U:=ascii_only) url0 resold_soup now0 !! "zero_remaining_found"
   = Some (VBool false) /\
   page_status (U:=ascii_only) url0 resold_soup now0 !! "sold_out" = Some (VBool false)).
Proof.
  split.
  - split; [reflexivity|]. split.
    + intros phrase Hin. simpl in Hin. intuition subst; reflexivity.
    + repeat split; reflexivity.
  - split; [reflexivity|]. split.
    + intros phrase Hin. simpl in Hin. intuition subst; reflexivity.
    + repeat split; reflexivity.
Qed.

(** C4 at a button that carries the [disabled] attribute with an empty
    value, as [<button disabled>] parses: the source reads the attribute
    as a condition, the empty string is false, and the button is counted
    as available; the page is reported available on its account alone. *)
Lemma C4_disabled_attribute_is_not_seen :
  tag_disabled disabled_button = Some [] /\
  has_ticket_text (U:=ascii_only) disabled_button = true /\
  is_disabled (U:=ascii_only) disabled_button = false /\
  available_buttons (U:=ascii_only) disabled_button_soup = [disabled_button; disabled_button] /\
  has_availability_text (U:=ascii_only) disabled_button_soup = false /\
  page_status (U:=ascii_only) url0 disabled_button_soup now0 !! "available"
  = Some (VBool true).
Proof. repeat split; reflexivity. Qed.

(** C5 on an event whose call of time 1000 is found completed at 2800. *)
Lemma C5_witness :
  let W := page_world 2800 closed_soup "CA2" "completed" in
  let Ws := [page_world 4600 open_soup "CA3" "queued"] in
  let d := [(url0, pending_config)] in
  let first := monitor_iteration (U:=ascii_only) W d in
  let later := monitor_events (U:=ascii_only) Ws first.1.2 in
  (field_read (last_call_sid pending_config) = py "CA1" /\
   (calls_fetch W url0 (py "CA1") = Ok (py "completed") \/
    calls_fetch W url0 (py "CA1") = Ok (py "in-progress")) /\
   exists elapsed,
     since_call 2800 (call_made_at pending_config) = Ok elapsed /\ (120 < elapsed)%Z) /\
  (exists c', In (url0, c') first.1.2 /\ suppressed c') /\
  (exists c', In (url0, c') later.1.2 /\ suppressed c') /\
  (forall t s, ~ In (t, CallPlaced url0 s) later.2).
Proof.
  apply (C5_answered_call_suppresses (U:=ascii_only)
           (page_world 2800 closed_soup "CA2" "completed")
           [page_world 4600 open_soup "CA3" "queued"]
           [(url0, pending_config)] url0 pending_config (py "CA1")).
  - apply NoDup_singleton.
  - left. reflexivity.
  - vm_compute. right. left. reflexivity.
Defined.

(** C6 on a request that times out and on a parser that raises. *)
Lemma C6_witness :
  (exists st, check_event_availability (U:=ascii_only) (timeout_world 1000) url0 = Ok st /\
     error_titled st "Error - Network Issue") /\
  (exists st, check_event_availability (U:=ascii_only) (parse_failure_world 1000) url0 = Ok st /\
     error_titled st "Error - Parse Issue").
Proof.
  split.
  - destruct (C6_check_always_returns_a_status (U:=ascii_only) (timeout_world 1000) url0)
      as (st & Hc & Hnet & _).
    exists st. split; [exact Hc|]. apply Hnet. left. eexists. reflexivity.
  - destruct (C6_check_always_returns_a_status (U:=ascii_only) (parse_failure_world 1000) url0)
      as (st & Hc & _ & Hparse).
    exists st. split; [exact Hc|].
    apply (Hparse (OtherException (py "maximum recursion depth exceeded")));
      reflexivity.
Defined.

(** C7 on the status of a request that timed out. *)
Lemma C7_witness :
  timeout_status !! "available" = Some (VBool false) /\
  forall key, In key signal_keys -> timeout_status !! key = None.
Proof.
  apply (C7_error_status_carries_no_signal (U:=ascii_only) (timeout_world 1000) url0).
  - reflexivity.
  - eexists. reflexivity.
Defined.

(** C7 as stated fails: the status of a failed check has no signal key,
    so none of them holds [False]. *)
Lemma C7_signal_keys_are_absent :
  check_event_availability (U:=ascii_only) (timeout_world 1000) url0 = Ok timeout_status /\
  is_Some (timeout_status !! "error") /\
  timeout_status !! "sold_out" <> Some (VBool false) /\
  timeout_status !! "availability_text_found" <> Some (VBool false).
Proof.
  split; [reflexivity|]. split; [by eexists|]. split; discriminate.
Qed.

(** C10 on a page that is on sale. *)
Lemma C10_witness :
  page_status (U:=ascii_only) url0 get_tickets_soup now0 !! "sold_out" = Some (VBool false).
Proof.
  apply (C10_available_excludes_sold_out (U:=ascii_only)
           (page_world 1000 get_tickets_soup "CA1" "queued") url0).
  - reflexivity.
  - reflexivity.
  - reflexivity.
Defined.

(** * Further properties of the code *)

Section MoreProperties.
Context {U : Unicode}.

(** ** The registry *)

Lemma str_eqb_true a b : str_eqb a b = true <-> a = b.
Proof. unfold str_eqb. apply bool_decide_eq_true. Qed.

Lemma str_eqb_false a b : str_eqb a b = false <-> a <> b.
Proof. unfold str_eqb. apply bool_decide_eq_false. Qed.

Lemma str_eqb_refl a : str_eqb a a = true.
Proof. by apply str_eqb_true. Qed.

Ltac str_cases :=
  repeat match goal with
    | H : str_eqb _ _ = true |- _ => apply str_eqb_true in H
    | H : str_eqb _ _ = false |- _ => apply str_eqb_false in H
    end; subst; try congruence; try done.

(** X1. After [add_event] the registry holds a fresh config for the url
    (the interval given, never checked, no status, not suppressed, no
    call), also when the url was registered before; every other url keeps
    its config. *)
Theorem add_event_lookup url url' i d :
  registry_get url' (add_event url i d) =
  if str_eqb url' url then Some (new_event i) else registry_get url' d.
Proof.
  unfold add_event. induction d as [|[k v] d IH]; simpl.
  - destruct (str_eqb url url') eqn:E1, (str_eqb url' url) eqn:E2; str_cases.
  - destruct (str_eqb k url) eqn:Ek; simpl.
    + destruct (str_eqb k url') eqn:E1, (str_eqb url' url) eqn:E2; str_cases.
    + destruct (str_eqb k url') eqn:E1; [|exact IH].
      destruct (str_eqb url' url) eqn:E2; str_cases.
Qed.

(** X3. After [remove_event] the url is gone and every other url keeps
    its config. *)
Theorem remove_event_lookup url url' d :
  registry_get url' (remove_event url d) =
  if str_eqb url' url then None else registry_get url' d.
Proof.
  unfold remove_event. induction d as [|[k v] d IH]; simpl.
  - by destruct (str_eqb url' url).
  - destruct (str_eqb k url) eqn:Ek; simpl; rewrite IH.
    + destruct (str_eqb k url') eqn:E1, (str_eqb url' url) eqn:E2; str_cases.
    + destruct (str_eqb k url') eqn:E1; [|done].
      destruct (str_eqb url' url) eqn:E2; str_cases.
Qed.

Lemma registry_get_None url d : registry_get url d = None <-> ~ In url (map fst d).
Proof.
  induction d as [|[k v] d IH]; simpl; [tauto|].
  destruct (str_eqb k url) eqn:E.
  - apply str_eqb_true in E. split; [done|]. intros H. exfalso. apply H. by left.
  - apply str_eqb_false in E. rewrite IH. tauto.
Qed.

(** X4. Removing a url that is not registered changes nothing. *)
Theorem remove_event_absent url d :
  registry_get url d = None -> remove_event url d = d.
Proof.
  unfold remove_event. induction d as [|[k v] d IH]; simpl; [done|].
  destruct (str_eqb k url) eqn:E; [done|]. simpl. intros H. by rewrite IH.
Qed.

(** X5. Adding a url that is not registered and removing it again gives
    the registry back. *)
Theorem add_then_remove_event url i d :
  registry_get url d = None -> remove_event url (add_event url i d) = d.
Proof.
  unfold add_event, remove_event. induction d as [|[k v] d IH]; simpl.
  - by rewrite str_eqb_refl.
  - destruct (str_eqb k url) eqn:E; [done|]. simpl. rewrite E. simpl.
    intros H. by rewrite IH.
Qed.

(** X2. [add_event] leaves the order of iteration as it is: a url already
    registered keeps its place, a new one goes last. *)
Theorem add_event_order url i d :
  map fst (add_event url i d) =
  match registry_get url d with
  | Some _ => map fst d
  | None => map fst d ++ [url]
  end.
Proof.
  unfold add_event. induction d as [|[k v] d IH]; simpl; [done|].
  destruct (str_eqb k url) eqn:E; simpl; [done|].
  rewrite IH. by destruct (registry_get url d).
Qed.

Lemma add_event_NoDup url i d : NoDup (map fst d) -> NoDup (map fst (add_event url i d)).
Proof.
  intros H. rewrite add_event_order. destruct (registry_get url d) eqn:E; [done|].
  apply registry_get_None in E. apply NoDup_app. split; [done|]. split.
  - intros x Hx Hx'. apply list_elem_of_singleton in Hx'. subst x.
    apply E. by apply list_elem_of_In.
  - apply NoDup_singleton.
Qed.

Lemma remove_event_NoDup url d : NoDup (map fst d) -> NoDup (map fst (remove_event url d)).
Proof.
  unfold remove_event. induction d as [|[k v] d IH]; simpl; [done|].
  intros H. apply NoDup_cons in H as [H1 H2].
  destruct (str_eqb k url); simpl; [by apply IH|].
  apply NoDup_cons. split; [|by apply IH].
  intros Hin. apply H1. apply list_elem_of_In in Hin. apply list_elem_of_In.
  apply in_map_iff in Hin as ([k' v'] & Hk & Hin). simpl in Hk. subst k'.
  apply filter_In in Hin as [Hin _]. apply in_map_iff. by exists (k, v').
Qed.

(** ** The loop body *)


Ltac run_event :=
  unfold monitor_event, try_except_M, process_event, mbind, M_bind, mret, M_ret,
    get_config, modify, tell, lift, getitem.

Ltac split_cases :=
  repeat split; intros;
  repeat match goal with
    | H : _ \/ _ |- _ => destruct H
    | H : False |- _ => destruct H
    | H : ex _ |- _ => destruct H
    end; simplify_eq; simpl; auto; try lia; try (eexists; left; reflexivity).

Lemma monitor_event_not_due W url c :
  (time_time W - last_check c < interval c)%Z ->
  monitor_event W url c = (Ok tt, c, []).
Proof.
  intros H. run_event. apply Z.leb_gt in H. by rewrite H.
Qed.

(** More of what one pass of the loop body does, given what the check
    returns. *)
Lemma monitor_event_effects W url c st :
  check_event_availability W url = Ok st ->
  let out := monitor_event W url c in
  let t := time_time W in
  (forall s, In (t, CallPlaced url s) out.2 ->
     st !! "available" = Some (VBool true) /\ s = make_alert_call W url st) /\
  (well_formed c ->
     well_formed out.1.2 /\ (forall e, ~ In (t, ErrorLogged url e) out.2) /\
     ((interval c <= t - last_check c)%Z ->
        last_check out.1.2 = t /\ last_status out.1.2 = Some st)) /\
  (forall sid, In (t, CallQueried url sid false) out.2 ->
     last_call_sid out.1.2 = PyNone /\ call_made_at out.1.2 = PyNone /\
     alert_sent out.1.2 = alert_sent c /\ last_check out.1.2 = t) /\
  (forall sid, In (t, CallPlaced url (Some sid)) out.2 -> sid <> [] ->
     last_call_sid out.1.2 = Val sid /\ call_made_at out.1.2 = Val t /\
     forall sid' a, ~ In (t, CallQueried url sid' a) out.2) /\
  (alert_sent out.1.2 = true ->
     alert_sent c = true \/ exists sid, In (t, CallQueried url sid true) out.2) /\
  ((forall sid a, ~ In (t, CallQueried url sid a) out.2) ->
     alert_sent out.1.2 = alert_sent c).
Proof.
  intros Hc.
  destruct (check_returns W url) as (st' & title & a & Hc' & Ht & Ha).
  rewrite Hc in Hc'. injection Hc' as <-.
  cbv zeta. unfold well_formed. run_event. rewrite Hc, Ha, Ht.
  destruct (interval c <=? time_time W - last_check c)%Z eqn:Hdue.
  2:{ simpl. apply Z.leb_gt in Hdue.
      repeat split; auto; try (intros; done); try (intros ? []); try lia. }
  apply Z.leb_le in Hdue.
  destruct a, (alert_sent c) eqn:Hsent; simpl.
  all: repeat (case_match; simpl in * ); simplify_eq; simpl.
  all: repeat match goal with
         | H : (_ <? _)%Z = true |- _ => apply Z.ltb_lt in H
         | H : negb _ = true |- _ => apply negb_true_iff in H
         | H : negb _ = false |- _ => apply negb_false_iff in H
         end.
  all: unfold set_call, not in *; simpl in *; simplify_eq.
  all: split_cases.
  all: try (exfalso; lia).
  all: try congruence.
  all: try (right; eexists; repeat first [left; reflexivity|right]; fail).
  all: try (repeat match goal with
              | H : str_eqb _ _ = _ |- _ =>
                  first [apply str_eqb_true in H|apply str_eqb_false in H]
              end; subst; simpl in *; try congruence; try done; fail).
  all: try match goal with
         | Hwf : _ = true -> _ = PyNone -> False, H : since_call _ _ = Raise _ |- _ =>
             exfalso; unfold since_call in H; case_match; simplify_eq; by apply Hwf
         end.
  all: try match goal with
         | H : forall sid a, _ -> False |- _ =>
             exfalso; eapply H; repeat first [left; reflexivity|right]; fail
         end.
  all: match goal with |- ?G => idtac "GOAL" G end.
Qed.

(** ** Reachable registries *)

Lemma new_event_well_formed i : well_formed (new_event i).
Proof. intros H. done. Qed.

Lemma monitor_event_well_formed W url c :
  well_formed c ->
  well_formed (monitor_event W url c).1.2 /\
  forall t u e, ~ In (t, ErrorLogged u e) (monitor_event W url c).2.
Proof.
  intros Hwf. destruct (check_returns W url) as (st & _ & _ & Hc & _).
  destruct (monitor_event_effects W url c st Hc) as (_ & Heff & _).
  destruct (Heff Hwf) as (Hwf' & Hno & _). split; [done|].
  intros t u e Hin.
  destruct (monitor_event_spec W url c) as (_ & _ & _ & _ & Hent & _).
  destruct (Hent _ Hin) as [Ht Hu]. simpl in Ht, Hu. subst. by apply (Hno e).
Qed.

Lemma event_run_well_formed Ws url c :
  well_formed c ->
  well_formed (event_run Ws url c).1 /\
  forall t u e, ~ In (t, ErrorLogged u e) (event_run Ws url c).2.
Proof.
  revert c. induction Ws as [|W Ws IH]; intros c Hwf; [by split; [|intros ? ? ? []]|].
  rewrite event_run_unfold. simpl.
  destruct (monitor_event_well_formed W url c Hwf) as [Hwf' Hno].
  destruct (IH _ Hwf') as [Hwf'' Hno']. split; [done|].
  intros t u e Hin. apply in_app_or in Hin as [Hin|Hin]; [by apply (Hno t u e)|by apply (Hno' t u e)].
Qed.

(** Every entry of the log of a run comes from the run of one event. *)
Lemma monitor_events_log_in Ws d e :
  In e (monitor_events Ws d).2 ->
  exists kv, In kv d /\ In e (event_run Ws kv.1 kv.2).2.
Proof.
  revert d. induction Ws as [|W Ws IH]; intros d Hin; [done|].
  rewrite monitor_events_unfold in Hin. simpl in Hin.
  apply in_app_or in Hin as [Hin|Hin].
  - rewrite monitor_iteration_map in Hin. simpl in Hin.
    apply in_flat_map in Hin as (kv & Hkv & Hin).
    exists kv. split; [done|]. rewrite event_run_unfold. simpl.
    apply in_or_app. by left.
  - destruct (IH _ Hin) as (kv' & Hkv' & Hin').
    rewrite monitor_iteration_map in Hkv'. simpl in Hkv'.
    apply in_map_iff in Hkv' as (kv & <- & Hkv).
    exists kv. split; [done|]. rewrite event_run_unfold. simpl in *.
    apply in_or_app. by right.
Qed.

Lemma add_event_Forall (P : event_config -> Prop) url i d :
  P (new_event i) -> Forall (fun kv => P kv.2) d ->
  Forall (fun kv => P kv.2) (add_event url i d).
Proof.
  intros Hn. unfold add_event. induction d as [|[k v] d IH]; intros H; simpl.
  - by repeat constructor.
  - apply Forall_cons in H as [H1 H2].
    destruct (str_eqb k url); constructor; auto.
Qed.

Lemma remove_event_Forall (P : event_config -> Prop) url d :
  Forall (fun kv => P kv.2) d -> Forall (fun kv => P kv.2) (remove_event url d).
Proof.
  intros H. unfold remove_event. apply Forall_forall. intros kv Hin.
  apply list_elem_of_In, filter_In in Hin as [Hin _].
  rewrite Forall_forall in H. apply H. by apply list_elem_of_In.
Qed.

Lemma run_keys Ws d : map fst (monitor_events Ws d).1.2 = map fst d.
Proof. rewrite monitor_events_registry, map_map. done. Qed.

(** X6. Whatever is added, removed and run, the registry has no url
    twice and every config is well formed. *)
Theorem reachable_registry_invariant d :
  reachable d ->
  NoDup (map fst d) /\ Forall (fun kv => well_formed kv.2) d.
Proof.
  induction 1 as [|url i d _ [IH1 IH2]|url d _ [IH1 IH2]|Ws d _ [IH1 IH2]].
  - split; constructor.
  - split; [by apply add_event_NoDup|].
    apply add_event_Forall; [apply new_event_well_formed|done].
  - split; [by apply remove_event_NoDup|by apply remove_event_Forall].
  - split; [by rewrite run_keys|].
    rewrite monitor_events_registry. apply Forall_forall. intros kv' Hin.
    apply list_elem_of_In, in_map_iff in Hin as (kv & <- & Hin). simpl.
    rewrite Forall_forall in IH2.
    assert (Hk : well_formed kv.2) by (apply IH2; by apply list_elem_of_In).
    by destruct (event_run_well_formed Ws kv.1 kv.2 Hk) as [Hw _].
Qed.

(** X7. On a registry the program can get, the loop returns normally and
    the body never raises: no error is logged in any run. *)
Theorem reachable_run_logs_no_error Ws d :
  reachable d ->
  (monitor_events Ws d).1.1 = Ok tt /\
  forall t u e, ~ In (t, ErrorLogged u e) (monitor_events Ws d).2.
Proof.
  intros Hr. split; [apply monitor_events_ok|].
  destruct (reachable_registry_invariant d Hr) as [_ Hwf].
  intros t u e Hin. apply monitor_events_log_in in Hin as (kv & Hkv & Hin).
  rewrite Forall_forall in Hwf.
  assert (Hk : well_formed kv.2) by (apply Hwf; by apply list_elem_of_In).
  destruct (event_run_well_formed Ws kv.1 kv.2 Hk) as [_ Hno]. by apply (Hno t u e).
Qed.

(** X8. The loop never adds, removes or reorders events and never
    changes an interval. *)
Theorem loop_keeps_keys_and_intervals Ws d :
  map (fun kv => (kv.1, interval kv.2)) (monitor_events Ws d).1.2 =
  map (fun kv => (kv.1, interval kv.2)) d.
Proof.
  rewrite monitor_events_registry, map_map. apply map_ext. intros [url c]. simpl.
  f_equal. revert c. induction Ws as [|W Ws IH]; intros c; [done|].
  rewrite event_run_unfold. simpl. rewrite IH.
  by destruct (monitor_event_spec W url c) as (_ & Hi & _).
Qed.

(** ** Iterations and runs *)

(** An entry of an iteration's log about an event of the registry was
    logged by that event's pass through the loop body. *)
Lemma iteration_entry W d url c t a :
  NoDup (map fst d) -> In (url, c) d ->
  In (t, a) (monitor_iteration W d).2 -> action_url a = url ->
  In (t, a) (monitor_event W url c).2 /\ t = time_time W.
Proof.
  intros Hnd Hin He Hu. apply (in_for_url url) in He; [|done].
  rewrite (for_url_iteration W d url c Hnd Hin) in He. split; [done|].
  destruct (monitor_event_spec W url c) as (_ & _ & _ & _ & Hent & _).
  by destruct (Hent _ He) as [Ht _].
Qed.

Lemma run_entry Ws d url c t a :
  NoDup (map fst d) -> In (url, c) d ->
  In (t, a) (monitor_events Ws d).2 -> action_url a = url ->
  In (t, a) (event_run Ws url c).2.
Proof.
  intros Hnd Hin He Hu. apply (in_for_url url) in He; [|done].
  by rewrite (for_url_run Ws d url c Hnd Hin) in He.
Qed.

(** X9. An event whose interval has not elapsed is left alone by the
    iteration: its config is unchanged and nothing is logged for it. *)
Theorem not_due_event_is_untouched W d url c :
  NoDup (map fst d) -> In (url, c) d ->
  (time_time W - last_check c < interval c)%Z ->
  In (url, c) (monitor_iteration W d).1.2 /\
  for_url url (monitor_iteration W d).2 = [].
Proof.
  intros Hnd Hin Hdue.
  pose proof (iteration_lookup W d url c Hin) as Hl.
  rewrite (for_url_iteration W d url c Hnd Hin).
  by rewrite (monitor_event_not_due W url c Hdue) in *.
Qed.

(** X10. When the check returns a status that is not available, as every
    error status is, the iteration places no call for the event. *)
Theorem unavailable_check_places_no_call W d url c st :
  NoDup (map fst d) -> In (url, c) d ->
  check_event_availability W url = Ok st ->
  st !! "available" = Some (VBool false) ->
  forall t s, ~ In (t, CallPlaced url s) (monitor_iteration W d).2.
Proof.
  intros Hnd Hin Hc Ha t s He.
  destruct (iteration_entry W d url c t _ Hnd Hin He eq_refl) as [He' ->].
  destruct (monitor_event_effects W url c st Hc) as (Hcall & _).
  destruct (Hcall _ He') as [Ha' _]. congruence.
Qed.

(** X11. When a well-formed event is due, the iteration records the
    check: afterwards [last_check] is the iteration's time and
    [last_status] the status the check returned, errors included. *)
Theorem check_outcome_is_recorded W d url c st :
  NoDup (map fst d) -> In (url, c) d ->
  well_formed c ->
  (interval c <= time_time W - last_check c)%Z ->
  check_event_availability W url = Ok st ->
  exists c', In (url, c') (monitor_iteration W d).1.2 /\
    last_check c' = time_time W /\ last_status c' = Some st.
Proof.
  intros Hnd Hin Hwf Hdue Hc. eexists. split; [by apply iteration_lookup|].
  destruct (monitor_event_effects W url c st Hc) as (_ & Heff & _).
  destruct (Heff Hwf) as (_ & _ & Hrec). by apply Hrec.
Qed.

Lemma monitor_event_call_fails W url c st :
  idle c ->
  (interval c <= time_time W - last_check c)%Z ->
  check_event_availability W url = Ok st ->
  st !! "available" = Some (VBool true) ->
  make_alert_call W url st = None ->
  monitor_event W url c =
    (Ok tt, set_checked (time_time W) st c,
     [(time_time W, Checked url st); (time_time W, CallPlaced url None)]).
Proof.
  intros [Hidle Hsent] Hdue Hc Ha Hcall.
  destruct (check_returns W url) as (st' & title & a & Hc' & Ht & _).
  rewrite Hc in Hc'. injection Hc' as <-.
  run_event. rewrite Hc, Ha, Ht, Hsent, Hcall.
  apply Z.leb_le in Hdue. rewrite Hdue. simpl. by rewrite Hidle.
Qed.

(** X12. When the call for an idle, available event cannot be placed,
    the event stays idle (no call id is recorded, it is not suppressed),
    the check is recorded, and nothing is verified. *)
Theorem failed_call_leaves_event_idle W d url c st :
  NoDup (map fst d) -> In (url, c) d ->
  idle c ->
  (interval c <= time_time W - last_check c)%Z ->
  check_event_availability W url = Ok st ->
  st !! "available" = Some (VBool true) ->
  make_alert_call W url st = None ->
  (exists c', In (url, c') (monitor_iteration W d).1.2 /\ idle c' /\
     last_check c' = time_time W) /\
  for_url url (monitor_iteration W d).2 =
    [(time_time W, Checked url st); (time_time W, CallPlaced url None)].
Proof.
  intros Hnd Hin Hidle Hdue Hc Ha Hcall.
  pose proof (monitor_event_call_fails W url c st Hidle Hdue Hc Ha Hcall) as Hev.
  pose proof (iteration_lookup W d url c Hin) as Hl. rewrite Hev in Hl. simpl in Hl.
  split.
  - eexists. split; [exact Hl|]. by destruct Hidle.
  - rewrite (for_url_iteration W d url c Hnd Hin). by rewrite Hev.
Qed.

(** X13. A verification that finds the call not answered clears the call
    id and the call time and leaves the event idle; the next due check
    that finds the event available places a new call. *)
Theorem unanswered_call_is_cleared_and_retried W W' d url c sid st' sid' :
  NoDup (map fst d) -> In (url, c) d ->
  alert_sent c = false ->
  In (time_time W, CallQueried url sid false) (monitor_iteration W d).2 ->
  (interval c <= time_time W' - time_time W)%Z ->
  check_event_availability W' url = Ok st' ->
  st' !! "available" = Some (VBool true) ->
  make_alert_call W' url st' = Some sid' ->
  sid' <> [] ->
  let first := monitor_iteration W d in
  let second := monitor_iteration W' first.1.2 in
  (exists c', In (url, c') first.1.2 /\ idle c' /\
     last_call_sid c' = PyNone /\ call_made_at c' = PyNone) /\
  for_url url second.2 =
    [(time_time W', Checked url st'); (time_time W', CallPlaced url (Some sid'))].
Proof.
  intros Hnd Hin Hsent Hq Hdue Hc Ha Hcall Hsid first second.
  destruct (iteration_entry W d url c _ _ Hnd Hin Hq eq_refl) as [Hq' _].
  destruct (check_returns W url) as (st & _ & _ & Hc0 & _).
  destruct (monitor_event_effects W url c st Hc0) as (_ & _ & Hclr & _).
  destruct (Hclr _ Hq') as (Hs1 & Hs2 & Hs3 & Hs4).
  destruct (monitor_event_spec W url c) as (_ & Hi & _).
  pose proof (iteration_lookup W d url c Hin) as Hl.
  set (c1 := (monitor_event W url c).1.2) in *.
  assert (Hidle : idle c1) by (split; [by rewrite Hs1|congruence]).
  split; [by exists c1|].
  unfold second. rewrite (for_url_iteration W' first.1.2 url c1);
    [|by unfold first; rewrite iteration_keys|exact Hl].
  rewrite (monitor_event_places_call W' url c1 st' sid'); auto.
  rewrite Hi, Hs4. done.
Qed.

Lemma monitor_event_available W url c st sid :
  alert_sent c = false ->
  (interval c <= time_time W - last_check c)%Z ->
  check_event_availability W url = Ok st ->
  st !! "available" = Some (VBool true) ->
  make_alert_call W url st = Some sid ->
  sid <> [] ->
  monitor_event W url c =
    (Ok tt,
     set_checked (time_time W) st (set_call (Val sid) (Val (time_time W)) c),
     [(time_time W, Checked url st); (time_time W, CallPlaced url (Some sid))]).
Proof.
  intros Hsent Hdue Hc Ha Hcall Hsid.
  destruct (check_returns W url) as (st' & title & a & Hc' & Ht & _).
  rewrite Hc in Hc'. injection Hc' as <-.
  run_event. rewrite Hc, Ha, Ht, Hsent, Hcall.
  apply Z.leb_le in Hdue. rewrite Hdue. simpl.
  assert (Hne : str_eqb sid [] = false) by (by apply str_eqb_false).
  rewrite Hne. simpl. rewrite ?Hne. simpl. rewrite Z.sub_diag. simpl. done.
Qed.

Lemma event_run_always_available Ws url c :
  Forall (call_succeeds url) Ws ->
  alert_sent c = false ->
  alert_sent (event_run Ws url c).1 = false /\
  (forall t sid a, ~ In (t, CallQueried url sid a) (event_run Ws url c).2) /\
  (forall t st, In (t, Checked url st) (event_run Ws url c).2 ->
     exists sid, In (t, CallPlaced url (Some sid)) (event_run Ws url c).2).
Proof.
  revert c. induction Ws as [|W Ws IH]; intros c HWs Hsent.
  { repeat split; try done; intros ? ? ? []. }
  apply Forall_cons in HWs as [(st & sid & Hc & Ha & Hcall & Hsid) HWs].
  rewrite event_run_unfold. simpl.
  destruct (Z_lt_le_dec (time_time W - last_check c) (interval c)) as [Hdue|Hdue].
  - rewrite (monitor_event_not_due W url c Hdue). simpl. by apply IH.
  - rewrite (monitor_event_available W url c st sid Hsent Hdue Hc Ha Hcall Hsid). simpl.
    destruct (IH (set_checked (time_time W) st
                    (set_call (Val sid) (Val (time_time W)) c)) HWs Hsent)
      as (IH1 & IH2 & IH3).
    split; [done|]. split.
    + intros t sid' a [H|[H|H]]; [done|done|by apply (IH2 t sid' a)].
    + intros t st0 [H|[H|H]].
      * injection H as <- <-. exists sid. right. by left.
      * done.
      * destruct (IH3 _ _ H) as [sid' H']. exists sid'. right. right. done.
Qed.

(** X14. While every check of an unsuppressed event finds it available
    and gets its call placed, every check places a call, no call is ever
    verified and the event is never suppressed: the new call takes the
    place of the pending one before the 120 seconds can have passed. *)
Theorem available_page_is_called_and_never_verified Ws d url c :
  NoDup (map fst d) -> In (url, c) d ->
  alert_sent c = false ->
  Forall (call_succeeds url) Ws ->
  let out := monitor_events Ws d in
  (exists c', In (url, c') out.1.2 /\ alert_sent c' = false) /\
  (forall t sid a, ~ In (t, CallQueried url sid a) out.2) /\
  (forall t st, In (t, Checked url st) out.2 ->
     exists sid, In (t, CallPlaced url (Some sid)) out.2).
Proof.
  intros Hnd Hin Hsent HWs out.
  destruct (event_run_always_available Ws url c HWs Hsent) as (H1 & H2 & H3).
  split; [|split].
  - eexists. split; [by apply run_lookup|done].
  - intros t sid a He. apply (H2 t sid a). by apply (run_entry Ws d url c).
  - intros t st He. apply (run_entry Ws d url c) in He; [|done..].
    destruct (H3 _ _ He) as [sid Hs]. exists sid.
    rewrite <- (for_url_run Ws d url c Hnd Hin) in Hs.
    by apply filter_In in Hs as [Hs _].
Qed.

Lemma event_run_suppression Ws url c :
  alert_sent c = false ->
  alert_sent (event_run Ws url c).1 = true ->
  exists t sid, In (t, CallQueried url sid true) (event_run Ws url c).2.
Proof.
  revert c. induction Ws as [|W Ws IH]; intros c Hsent Hs; [simpl in *; congruence|].
  rewrite event_run_unfold in *. simpl in *.
  destruct (alert_sent (monitor_event W url c).1.2) eqn:E.
  - destruct (check_returns W url) as (st & _ & _ & Hc & _).
    destruct (monitor_event_effects W url c st Hc) as (_ & _ & _ & _ & Hsup & _).
    destruct (Hsup E) as [?|[sid Hq]]; [congruence|].
    exists (time_time W), sid. apply in_or_app. by left.
  - destruct (IH _ E Hs) as (t & sid & Hq). exists t, sid. apply in_or_app. by right.
Qed.

(** X15. An event that was not suppressed before a run and is suppressed
    after it had a call verified as answered in that run. *)
Theorem suppression_only_after_answered_call Ws d url c c' :
  NoDup (map fst d) -> In (url, c) d ->
  alert_sent c = false ->
  In (url, c') (monitor_events Ws d).1.2 ->
  alert_sent c' = true ->
  exists t sid, In (t, CallQueried url sid true) (monitor_events Ws d).2.
Proof.
  intros Hnd Hin Hsent Hin' Hs.
  pose proof (run_lookup Ws d url c Hin) as Hl.
  assert (Heq : c' = (event_run Ws url c).1).
  { assert (Hnd' : NoDup (map fst (monitor_events Ws d).1.2)) by (by rewrite run_keys).
    clear -Hnd' Hin' Hl. induction ((monitor_events Ws d).1.2) as [|[k v] l IH]; [done|].
    simpl in *. apply NoDup_cons in Hnd' as [Hk Hnd'].
    destruct Hin' as [H1|H1], Hl as [H2|H2]; simplify_eq; auto.
    - exfalso. apply Hk. apply list_elem_of_In. apply (in_map fst) in H2. done.
    - exfalso. apply Hk. apply list_elem_of_In. apply (in_map fst) in H1. done. }
  subst c'. destruct (event_run_suppression Ws url c Hsent Hs) as (t & sid & Hq).
  exists t, sid. rewrite <- (for_url_run Ws d url c Hnd Hin) in Hq.
  by apply filter_In in Hq as [Hq _].
Qed.

(** ** The classifier, the title and the call *)

Lemma search_from_split ic p prev s :
  search_from ic p prev s = true ->
  exists pre post, s = pre ++ post /\
    match_here ic p (match last pre with Some c => Some c | None => prev end) post = true.
Proof.
  revert prev. induction s as [|x s IH]; intros prev H; simpl in H.
  - rewrite orb_false_r in H. by exists [], [].
  - apply orb_true_iff in H as [H|H].
    + by exists [], (x :: s).
    + destruct (IH _ H) as (pre & post & -> & Hm).
      exists (x :: pre), post. split; [done|]. by rewrite last_cons_or.
Qed.

Lemma match_here_chars_inv w p prev s :
  match_here false (map Chr w ++ p) prev s = true ->
  exists rest, s = w ++ rest /\
    match_here false p (match last w with Some c => Some c | None => prev end) rest = true.
Proof.
  revert prev s. induction w as [|c w IH]; intros prev s H; simpl in H.
  - by exists s.
  - destruct s as [|x s]; [done|]. apply andb_true_iff in H as [Hx H].
    unfold chr_match in Hx. simpl in Hx. rewrite orb_false_r in Hx.
    apply N.eqb_eq in Hx. subst x.
    destruct (IH _ _ H) as (rest & -> & Hm). exists rest. split; [done|].
    by rewrite (last_cons_or c w prev).
Qed.

Lemma match_bounded_inv w prev s :
  (forall rest, word_at (w ++ rest) = true) -> word_before (last w) = true ->
  match_here false (Boundary :: map Chr w ++ [Boundary]) prev s = true ->
  exists post, s = w ++ post /\ word_before prev = false /\ word_at post = false.
Proof.
  intros Hw Hl H.
  change (xorb (word_before prev) (word_at s)
          && match_here false (map Chr w ++ [Boundary]) prev s = true) in H.
  apply andb_true_iff in H as [Hx H].
  destruct (match_here_chars_inv _ _ _ _ H) as (post & -> & Hm).
  exists post. split; [done|]. rewrite Hw in Hx.
  destruct (last w) as [c|] eqn:E; [|done]. simpl in Hm.
  rewrite andb_true_r in Hm. simpl in Hl. rewrite Hl in Hm.
  split; [by destruct (word_before prev)|by destruct (word_at post)].
Qed.

(** X16. The sold-out text flag is set exactly when one of the ten
    phrases stands in the page text between two word boundaries. *)
Theorem sold_out_text_iff (soup : Soup) :
  is_sold_out_text soup = true <->
  exists phrase, In phrase sold_out_phrases /\ whole_words (py phrase) (page_text soup).
Proof.
  split; [|intros (phrase & Hin & Hw); by apply (sold_out_phrase_found soup phrase)].
  unfold is_sold_out_text, re_search. intros H.
  apply existsb_exists in H as (pat & Hpat & Hs).
  apply (in_map re_compile) in Hpat. rewrite sold_out_patterns_phrases in Hpat.
  apply in_map_iff in Hpat as (phrase & Hc & Hin). rewrite <- Hc in Hs.
  destruct (search_from_split _ _ _ _ Hs) as (pre & post & Htext & Hm).
  exists phrase. split; [done|].
  apply match_bounded_inv in Hm as (post' & -> & Hb & Ha).
  - exists pre, post'. split; [done|]. split; [|done]. by destruct (last pre).
  - intros rest. simpl in Hin. intuition subst; reflexivity.
  - simpl in Hin. intuition subst; reflexivity.
Qed.

Lemma zero_pattern_start p prev s :
  match_here false (Boundary :: Chr 48%N :: Spaces :: p) prev s = true ->
  word_before prev = false /\
  exists x rest, s = 48%N :: x :: rest /\ isspace x = true.
Proof.
  intros H.
  change (xorb (word_before prev) (word_at s)
          && match_here false (Chr 48%N :: Spaces :: p) prev s = true) in H.
  apply andb_true_iff in H as [Hx H].
  destruct s as [|z s]; [done|]. simpl in H. apply andb_true_iff in H as [Hz H].
  unfold chr_match in Hz. simpl in Hz. rewrite orb_false_r in Hz.
  apply N.eqb_eq in Hz. subst z.
  destruct s as [|x s]; [done|]. apply andb_true_iff in H as [Hsp _].
  change (word_at (48%N :: x :: s)) with true in Hx.
  split; [by destruct (word_before prev)|]. by exists x, s.
Qed.

(** X17. The "0 remaining" flag needs a 0 that starts a word and is
    followed by whitespace: "10 remaining" does not set it. *)
Theorem zero_remaining_needs_a_standalone_zero (soup : Soup) :
  has_zero_remaining soup = true ->
  exists (pre : pystr) (x : char) (rest : pystr),
    page_text soup = pre ++ 48%N :: x :: rest /\
    word_before (last pre) = false /\ isspace x = true.
Proof.
  unfold has_zero_remaining, re_search. intros H.
  apply existsb_exists in H as (pat & Hpat & Hs).
  destruct (search_from_split _ _ _ _ Hs) as (pre & post & Htext & Hm).
  assert (Hz : word_before (match last pre with Some c => Some c | None => None end) = false /\
               exists x rest, post = 48%N :: x :: rest /\ isspace x = true).
  { simpl in Hpat. destruct Hpat as [<-|[<-|[<-|[]]]].
    - exact (zero_pattern_start (re_compile "remaining\b") _ _ Hm).
    - exact (zero_pattern_start (re_compile "tickets?\s+remaining\b") _ _ Hm).
    - exact (zero_pattern_start (re_compile "spots?\s+remaining\b") _ _ Hm). }
  destruct Hz as (Hb & x & rest & -> & Hx).
  exists pre, x, rest. split; [done|]. split; [|done].
  revert Hb. by destruct (last pre).
Qed.

(** [strip] *)
Lemma lstrip_head s c r : lstrip s = c :: r -> isspace c = false.
Proof.
  induction s as [|x s IH]; simpl; [done|].
  destruct (isspace x) eqn:E; [done|]. intros H. by injection H as <- _.
Qed.

Lemma lstrip_suffix s : exists pre, s = pre ++ lstrip s.
Proof.
  induction s as [|x s [pre IH]]; simpl; [by exists []|].
  destruct (isspace x); [|by exists []]. exists (x :: pre). simpl. by rewrite <- IH.
Qed.

Lemma strip_head s c r : strip s = c :: r -> isspace c = false.
Proof.
  unfold strip. intros H.
  destruct (lstrip_suffix (rev (lstrip s))) as [pre Hpre].
  apply (f_equal (@rev _)) in Hpre. rewrite rev_involutive, rev_app_distr, H in Hpre.
  simpl in Hpre. by apply lstrip_head in Hpre.
Qed.

Lemma strip_last s c : last (strip s) = Some c -> isspace c = false.
Proof.
  unfold strip. destruct (lstrip (rev (lstrip s))) as [|x l] eqn:E; [done|].
  simpl. rewrite last_snoc. intros H. injection H as <-. by apply lstrip_head in E.
Qed.

(** X18. The title of a status neither begins nor ends with whitespace,
    and it is "Unknown Event" when the page has no [h1] and no [title]. *)
Theorem event_title_is_trimmed (soup : Soup) :
  (forall c r, event_title soup = c :: r -> isspace c = false) /\
  (forall c, last (event_title soup) = Some c -> isspace c = false) /\
  (soup_find_h1_title soup = None -> soup_find_h1 soup = None ->
   soup_find_title soup = None -> event_title soup = py "Unknown Event").
Proof.
  unfold event_title.
  destruct (soup_find_h1_title soup) as [t|];
    [|destruct (soup_find_h1 soup) as [t|]; [|destruct (soup_find_title soup) as [t|]]].
  1-3: split; [apply strip_head|split; [apply strip_last|done]].
  split; [|split; [|done]].
  - intros c r H. injection H as <- _. reflexivity.
  - intros c H. injection H as <-. reflexivity.
Qed.

(** X19. Every status the check returns has the url it was asked about,
    a title, a boolean [available] and the time of the check; it has no
    [error] exactly when the page was fetched and parsed. *)
Theorem status_keys W url :
  exists st title available,
    check_event_availability W url = Ok st /\
    st !! "url" = Some (VStr url) /\
    st !! "title" = Some (VStr title) /\
    st !! "available" = Some (VBool available) /\
    st !! "checked_at" = Some (VStr (datetime_now W url)) /\
    (st !! "error" = None <-> exists soup, fetches W url soup).
Proof.
  destruct (check_cases W url) as [(soup & Hf & ->)|(e & He & ->)].
  - eexists _, _, _. repeat split; try reflexivity. intros _. by exists soup.
  - eexists _, _, _. repeat split; try reflexivity; [done|].
    intros [soup Hf]. rewrite (check_page_fetches _ _ _ Hf) in He. done.
Qed.

Lemma filter_exists {A} (f : A -> bool) (l : list A) :
  (0 < Z.of_nat (List.length (List.filter f l)))%Z <-> exists x, In x l /\ f x = true.
Proof.
  split.
  - destruct (List.filter f l) as [|x l'] eqn:E; [simpl; lia|]. intros _.
    exists x. apply filter_In. rewrite E. by left.
  - intros (x & Hx & Hf). assert (Hin : In x (List.filter f l)) by (by apply filter_In).
    destruct (List.filter f l); [done|]. simpl. lia.
Qed.

(** X20. In the status of a parsed page the count of available buttons
    lies between 0 and the count of buttons found, and is positive
    exactly when some button found has a ticket word and is not seen as
    disabled. *)
Theorem button_counts W url soup :
  fetches W url soup ->
  exists st total avail,
    check_event_availability W url = Ok st /\
    st !! "total_buttons_found" = Some (VInt total) /\
    st !! "available_buttons" = Some (VInt avail) /\
    (0 <= avail <= total)%Z /\
    ((0 < avail)%Z <->
     exists button, In button (buttons soup) /\
       has_ticket_text button = true /\ is_disabled button = false).
Proof.
  intros Hf. eexists _, _, _. split; [by apply check_fetches|].
  split; [reflexivity|]. split; [reflexivity|]. split.
  - unfold total_buttons, available_buttons.
    pose proof (List.filter_length_le
      (fun button => has_ticket_text button && negb (is_disabled button)) (buttons soup)).
    lia.
  - unfold available_buttons. rewrite filter_exists.
    split; intros (b & Hb & H); exists b; (split; [done|]).
    + apply andb_true_iff in H as [H1 H2]. by apply negb_true_iff in H2.
    + destruct H as [-> ->]. done.
Qed.

Lemma is_available_iff (soup : Soup) :
  is_available soup = true <->
  has_availability_text soup = true \/
  ((exists button, In button (buttons soup) /\
      has_ticket_text button = true /\ is_disabled button = false) /\
   is_sold_out_text soup = false /\
   has_sold_out_elements soup = false /\
   has_zero_remaining soup = false).
Proof.
  assert (Hb : (0 <? Z.of_nat (List.length (available_buttons soup)))%Z = true <->
               exists button, In button (buttons soup) /\
                 has_ticket_text button = true /\ is_disabled button = false).
  { rewrite Z.ltb_lt. unfold available_buttons. rewrite filter_exists.
    split; intros (b & Hb & H); exists b; (split; [done|]).
    - apply andb_true_iff in H as [H1 H2]. by apply negb_true_iff in H2.
    - destruct H as [-> ->]. done. }
  rewrite <- Hb. unfold is_available, is_definitely_sold_out.
  destruct (has_availability_text soup), (is_sold_out_text soup),
    (has_sold_out_elements soup), (has_zero_remaining soup),
    (0 <? Z.of_nat (List.length (available_buttons soup)))%Z; simpl;
    split; intros H; try done; try tauto; try (by left); try (by right);
    try (destruct H as [H|(H1 & H2 & H3 & H4)]; done).
Qed.

(** X21. A parsed page is reported available exactly when it has
    purchase-intent text, or it has an eligible button and no sold-out
    sign at all (text, marked element, "0 remaining"). *)
Theorem available_iff W url soup :
  fetches W url soup ->
  exists st,
    check_event_availability W url = Ok st /\
    (st !! "available" = Some (VBool true) <->
     has_availability_text soup = true \/
     ((exists button, In button (buttons soup) /\
         has_ticket_text button = true /\ is_disabled button = false) /\
      is_sold_out_text soup = false /\
      has_sold_out_elements soup = false /\
      has_zero_remaining soup = false)).
Proof.
  intros Hf. eexists. split; [by apply check_fetches|].
  rewrite <- is_available_iff.
  assert (Hst : page_status url soup (datetime_now W url) !! "available"
                = Some (VBool (is_available soup))) by reflexivity.
  rewrite Hst. split; intros H; [by injection H|by rewrite H].
Qed.

Lemma contains_unfold p s :
  contains p s = starts_with p s || match s with [] => false | _ :: s' => contains p s' end.
Proof. by destruct s. Qed.

Lemma starts_with_app p q : starts_with p (p ++ q) = true.
Proof. induction p as [|a p IH]; simpl; [done|]. by rewrite N.eqb_refl. Qed.

Lemma contains_app p pre post : contains p (pre ++ p ++ post) = true.
Proof.
  induction pre as [|x pre IH].
  - rewrite contains_unfold. simpl. by rewrite starts_with_app.
  - simpl. rewrite IH. apply orb_true_r.
Qed.

(** X22. A status the check returned always has a title, the text spoken
    in the call contains it, and [make_alert_call] returns the call id
    when the gateway takes the call and [None] when the gateway raises. *)
Theorem alert_call_after_check W url st :
  check_event_availability W url = Ok st ->
  exists title,
    st !! "title" = Some (VStr title) /\
    contains title (alert_text (VStr title)) = true /\
    make_alert_call W url st =
      match calls_create W url (alert_text (VStr title)) with
      | Ok sid => Some sid
      | Raise _ => None
      end.
Proof.
  intros Hc. destruct (check_returns W url) as (st' & title & a & Hc' & Ht & _).
  rewrite Hc in Hc'. injection Hc' as <-. exists title. split; [done|]. split.
  - unfold alert_text. change (value_str (VStr title)) with title. apply contains_app.
  - unfold make_alert_call, getitem, mbind, result_bind. by rewrite Ht.
Qed.

End MoreProperties.

(** * Further properties at concrete inputs *)

Lemma remove_event_absent_witness :
  remove_event url1 (add_event url0 1800 []) = add_event url0 1800 [].
Proof. apply remove_event_absent. reflexivity. Defined.

Lemma add_then_remove_event_witness :
  remove_event url1 (add_event url1 900 (add_event url0 1800 [])) = add_event url0 1800 [].
Proof. apply add_then_remove_event. reflexivity. Defined.

Lemma reachable_example :
  reachable (U:=ascii_only)
    (monitor_events (U:=ascii_only) [page_world 2000 open_soup "CA1" "queued"]
       (add_event url1 900 (remove_event url0 (add_event url0 1800 [])))).1.2.
Proof. apply reach_run, reach_add, reach_remove, reach_add, reach_empty. Defined.

Lemma reachable_registry_invariant_witness :
  let d := (monitor_events (U:=ascii_only) [page_world 2000 open_soup "CA1" "queued"]
              (add_event url1 900 (remove_event url0 (add_event url0 1800 [])))).1.2 in
  NoDup (map fst d) /\ Forall (fun kv => well_formed kv.2) d.
Proof. apply (reachable_registry_invariant (U:=ascii_only)), reachable_example. Defined.

Lemma reachable_run_logs_no_error_witness :
  let d := (monitor_events (U:=ascii_only) [page_world 2000 open_soup "CA1" "queued"]
              (add_event url1 900 (remove_event url0 (add_event url0 1800 [])))).1.2 in
  let Ws := [page_world 4000 closed_soup "CA2" "no-answer"] in
  (monitor_events (U:=ascii_only) Ws d).1.1 = Ok tt /\
  forall t u e, ~ In (t, ErrorLogged u e) (monitor_events (U:=ascii_only) Ws d).2.
Proof. apply (reachable_run_logs_no_error (U:=ascii_only)), reachable_example. Defined.

Lemma not_due_event_is_untouched_witness :
  let W := page_world 2000 open_soup "CA2" "completed" in
  In (url0, pending_config) (monitor_iteration (U:=ascii_only) W [(url0, pending_config)]).1.2 /\
  for_url url0 (monitor_iteration (U:=ascii_only) W [(url0, pending_config)]).2 = [].
Proof.
  apply (not_due_event_is_untouched (U:=ascii_only)).
  - apply NoDup_singleton.
  - left. reflexivity.
  - simpl. lia.
Defined.

Lemma unavailable_check_places_no_call_witness :
  ~ In (2800%Z, CallPlaced url0 (Some (py "CA0")))
      (monitor_iteration (U:=ascii_only) (timeout_world 2800) (add_event url0 1800 [])).2.
Proof.
  apply (unavailable_check_places_no_call (U:=ascii_only)
           (timeout_world 2800) (add_event url0 1800 []) url0 (new_event 1800)
           timeout_status).
  - apply NoDup_singleton.
  - left. reflexivity.
  - reflexivity.
  - reflexivity.
Defined.

Lemma check_outcome_is_recorded_witness :
  exists c',
    In (url0, c')
      (monitor_iteration (U:=ascii_only) (timeout_world 2800) (add_event url0 1800 [])).1.2 /\
    last_check c' = 2800%Z /\ last_status c' = Some timeout_status.
Proof.
  apply (check_outcome_is_recorded (U:=ascii_only)
           (timeout_world 2800) (add_event url0 1800 []) url0 (new_event 1800)
           timeout_status).
  - apply NoDup_singleton.
  - left. reflexivity.
  - intros H. discriminate H.
  - simpl. lia.
  - reflexivity.
Defined.

Lemma failed_call_leaves_event_idle_witness :
  let W := gateway_down_world 2000 open_soup in
  let d := add_event url0 1800 [] in
  (exists c', In (url0, c') (monitor_iteration (U:=ascii_only) W d).1.2 /\ idle c' /\
     last_check c' = 2000%Z) /\
  for_url url0 (monitor_iteration (U:=ascii_only) W d).2 =
    [(2000%Z, Checked url0 open_status); (2000%Z, CallPlaced url0 None)].
Proof.
  apply (failed_call_leaves_event_idle (U:=ascii_only)
           (gateway_down_world 2000 open_soup) (add_event url0 1800 []) url0
           (new_event 1800) open_status).
  - apply NoDup_singleton.
  - left. reflexivity.
  - split; reflexivity.
  - simpl. lia.
  - reflexivity.
  - reflexivity.
  - reflexivity.
Defined.

Lemma unanswered_call_is_cleared_and_retried_witness :
  let W := page_world 2800 closed_soup "CA2" "no-answer" in
  let W' := page_world 4600 open_soup "CA3" "queued" in
  let first := monitor_iteration (U:=ascii_only) W [(url0, pending_config)] in
  let second := monitor_iteration (U:=ascii_only) W' first.1.2 in
  (exists c', In (url0, c') first.1.2 /\ idle c' /\
     last_call_sid c' = PyNone /\ call_made_at c' = PyNone) /\
  for_url url0 second.2 =
    [(4600%Z, Checked url0 open_status); (4600%Z, CallPlaced url0 (Some (py "CA3")))].
Proof.
  apply (unanswered_call_is_cleared_and_retried (U:=ascii_only)
           (page_world 2800 closed_soup "CA2" "no-answer")
           (page_world 4600 open_soup "CA3" "queued")
           [(url0, pending_config)] url0 pending_config (py "CA1")
           open_status (py "CA3")).
  - apply NoDup_singleton.
  - left. reflexivity.
  - reflexivity.
  - vm_compute. right. left. reflexivity.
  - simpl. lia.
  - reflexivity.
  - reflexivity.
  - reflexivity.
  - discriminate.
Defined.

Lemma available_page_is_called_and_never_verified_witness :
  let Ws := [page_world 2000 open_soup "CA1" "queued";
             page_world 3800 open_soup "CA2" "completed";
             page_world 5600 open_soup "CA3" "completed"] in
  let out := monitor_events (U:=ascii_only) Ws (add_event url0 1800 []) in
  (exists c', In (url0, c') out.1.2 /\ alert_sent c' = false) /\
  (forall t sid a, ~ In (t, CallQueried url0 sid a) out.2) /\
  (forall t st, In (t, Checked url0 st) out.2 ->
     exists sid, In (t, CallPlaced url0 (Some sid)) out.2).
Proof.
  apply (available_page_is_called_and_never_verified (U:=ascii_only)
           [page_world 2000 open_soup "CA1" "queued";
            page_world 3800 open_soup "CA2" "completed";
            page_world 5600 open_soup "CA3" "completed"]
           (add_event url0 1800 []) url0 (new_event 1800)).
  - apply NoDup_singleton.
  - left. reflexivity.
  - reflexivity.
  - repeat constructor.
    + exists open_status, (py "CA1"). repeat split; try reflexivity. discriminate.
    + exists open_status, (py "CA2"). repeat split; try reflexivity. discriminate.
    + exists open_status, (py "CA3"). repeat split; try reflexivity. discriminate.
Defined.

Lemma suppression_only_after_answered_call_witness :
  exists t sid,
    In (t, CallQueried url0 sid true)
      (monitor_events (U:=ascii_only) [page_world 2800 closed_soup "CA2" "completed"]
         [(url0, pending_config)]).2.
Proof.
  apply (suppression_only_after_answered_call (U:=ascii_only)
           [page_world 2800 closed_soup "CA2" "completed"]
           [(url0, pending_config)] url0 pending_config
           (set_checked 2800 closed_status (set_alert_sent true pending_config))).
  - apply NoDup_singleton.
  - left. reflexivity.
  - reflexivity.
  - left. reflexivity.
  - reflexivity.
Defined.

Lemma zero_remaining_needs_a_standalone_zero_witness :
  exists (pre : pystr) (x : char) (rest : pystr),
    page_text (U:=ascii_only) zero_left_soup = pre ++ 48%N :: x :: rest /\
    word_before (U:=ascii_only) (last pre) = false /\ isspace (U:=ascii_only) x = true.
Proof.
  apply (zero_remaining_needs_a_standalone_zero (U:=ascii_only) zero_left_soup).
  reflexivity.
Defined.

Lemma event_title_is_trimmed_witness :
  event_title (U:=ascii_only) heading_soup = py "Community Day" /\
  isspace (U:=ascii_only) 67%N = false /\
  event_title (U:=ascii_only) open_soup = py "Unknown Event".
Proof.
  destruct (event_title_is_trimmed (U:=ascii_only) heading_soup) as (Hh & _ & _).
  destruct (event_title_is_trimmed (U:=ascii_only) open_soup) as (_ & _ & Hn).
  split; [reflexivity|]. split.
  - apply (Hh 67%N (py "ommunity Day")). reflexivity.
  - apply Hn; reflexivity.
Defined.

Lemma button_counts_witness :
  exists st total avail,
    check_event_availability (U:=ascii_only)
      (page_world 1000 disabled_button_soup "CA1" "queued") url0 = Ok st /\
    st !! "total_buttons_found" = Some (VInt total) /\
    st !! "available_buttons" = Some (VInt avail) /\
    (0 <= avail <= total)%Z /\
    ((0 < avail)%Z <->
     exists button, In button (buttons disabled_button_soup) /\
       has_ticket_text (U:=ascii_only) button = true /\
       is_disabled (U:=ascii_only) button = false).
Proof.
  apply (button_counts (U:=ascii_only)
           (page_world 1000 disabled_button_soup "CA1" "queued") url0).
  eexists. repeat split; reflexivity.
Defined.

Lemma available_iff_witness :
  exists st,
    check_event_availability (U:=ascii_only)
      (page_world 1000 get_tickets_soup "CA1" "queued") url0 = Ok st /\
    (st !! "available" = Some (VBool true) <->
     has_availability_text (U:=ascii_only) get_tickets_soup = true \/
     ((exists button, In button (buttons get_tickets_soup) /\
         has_ticket_text (U:=ascii_only) button = true /\
         is_disabled (U:=ascii_only) button = false) /\
      is_sold_out_text (U:=ascii_only) get_tickets_soup = false /\
      has_sold_out_elements get_tickets_soup = false /\
      has_zero_remaining (U:=ascii_only) get_tickets_soup = false)).
Proof.
  apply (available_iff (U:=ascii_only)
           (page_world 1000 get_tickets_soup "CA1" "queued") url0).
  eexists. repeat split; reflexivity.
Defined.

Lemma alert_call_after_check_witness :
  let W := page_world 1000 open_soup "CA1" "queued" in
  exists title,
    open_status !! "title" = Some (VStr title) /\
    contains title (alert_text (VStr title)) = true /\
    make_alert_call W url0 open_status =
      match calls_create W url0 (alert_text (VStr title)) with
      | Ok sid => Some sid
      | Raise _ => None
      end.
Proof.
  apply (alert_call_after_check (U:=ascii_only)
           (page_world 1000 open_soup "CA1" "queued") url0 open_status).
  reflexivity.
Defined.

(** * The schedule and the failures of other events *)

Section Scheduling.
Context {U : Unicode}.

Ltac run_event :=
  unfold monitor_event, try_except_M, process_event, mbind, M_bind, mret, M_ret,
    get_config, modify, tell, lift, getitem.

(** A run over two lists of iterations is the run over the first, then
    the run over the second from the registry the first leaves. *)
Lemma monitor_events_app Ws1 Ws2 d :
  monitor_events (Ws1 ++ Ws2) d =
  let a := monitor_events Ws1 d in
  let b := monitor_events Ws2 a.1.2 in
  (b.1.1, b.1.2, a.2 ++ b.2).
Proof.
  revert d. induction Ws1 as [|W Ws1 IH]; intros d.
  - simpl. by destruct (monitor_events Ws2 d) as [[r d'] l].
  - change ((W :: Ws1) ++ Ws2) with (W :: (Ws1 ++ Ws2)).
    rewrite !monitor_events_unfold. simpl. rewrite IH. simpl.
    by rewrite app_assoc.
Qed.

(** The body of the loop on an event, given what
    [check_event_availability] returns for it: nothing when the event is
    not due; else the first entry of the log is that check with that
    status, there is no other check, and the status and the time are
    stored unless an error was logged. *)
Lemma monitor_event_checked W url c st :
  check_event_availability W url = Ok st ->
  let out := monitor_event W url c in
  let t := time_time W in
  ((t - last_check c < interval c)%Z -> out = (Ok tt, c, [])) /\
  ((interval c <= t - last_check c)%Z ->
     exists rest,
       out.2 = (t, Checked url st) :: rest /\
       (forall t' st', ~ In (t', Checked url st') rest) /\
       (last_check out.1.2 = t /\ last_status out.1.2 = Some st \/
        exists e, In (t, ErrorLogged url e) out.2)).
Proof.
  intros Hc. cbv zeta. split; [apply monitor_event_not_due|].
  destruct (check_returns W url) as (st' & title & a & Hc' & Ht & Ha).
  rewrite Hc in Hc'. injection Hc' as <-.
  intros Hdue. run_event. rewrite Hc, Ha, Ht.
  apply Z.leb_le in Hdue. rewrite Hdue.
  destruct a, (alert_sent c) eqn:Hsent; simpl.
  all: repeat (case_match; simpl in * ); simplify_eq; simpl.
  all: eexists; split; [reflexivity|]; split;
    [intros t' st' H; simpl in H;
     repeat match goal with
       | H : _ \/ _ |- _ => destruct H
       | H : False |- _ => destruct H
       end; discriminate
    |first [left; split; reflexivity
           |right; eexists; simpl; repeat first [left; reflexivity|right]]].
Qed.

(** The same for an event of a registry, in the log and the registry of
    one iteration. *)
Lemma iteration_checked W d url c st :
  NoDup (map fst d) -> In (url, c) d ->
  check_event_availability W url = Ok st ->
  (interval c <= time_time W - last_check c)%Z ->
  exists rest,
    for_url url (monitor_iteration W d).2 = (time_time W, Checked url st) :: rest /\
    (forall t' st', ~ In (t', Checked url st') rest) /\
    In (time_time W, Checked url st) (monitor_iteration W d).2 /\
    exists c', In (url, c') (monitor_iteration W d).1.2 /\
      (last_check c' = time_time W /\ last_status c' = Some st \/
       exists e, In (time_time W, ErrorLogged url e) (monitor_iteration W d).2) /\
      (well_formed c -> last_check c' = time_time W /\ last_status c' = Some st).
Proof.
  intros Hnd Hin Hc Hdue.
  destruct (monitor_event_checked W url c st Hc) as [_ Hchk].
  destruct (Hchk Hdue) as (rest & Hlog & Hone & Hrec).
  pose proof (for_url_iteration W d url c Hnd Hin) as Hfor.
  assert (Hsub : forall e, In e (monitor_event W url c).2 -> In e (monitor_iteration W d).2).
  { intros e He. rewrite <- Hfor in He. by apply filter_In in He as [He _]. }
  exists rest. split; [by rewrite Hfor|]. split; [done|]. split.
  - apply Hsub. rewrite Hlog. by left.
  - eexists. split; [by apply iteration_lookup|]. split.
    + destruct Hrec as [Hrec|[e He]]; [by left|right]. exists e. by apply Hsub.
    + intros Hwf. destruct Hrec as [Hrec|[e He]]; [done|].
      destruct (monitor_event_well_formed W url c Hwf) as [_ Hno].
      by destruct (Hno _ _ _ He).
Qed.


(** C9. Take any run of the loop, any iteration [W] of it, and the
    registry at the start of that iteration; let [url_f] be any event of
    that registry and [url] an event that comes after it.  Nothing is
    assumed of [url_f], of its config, or of what the request, the
    parser and the gateway do in any iteration, so its page may fail to
    load or to parse, its calls may fail to be placed or queried, and
    the body of the loop may raise on it.  Whatever happens to [url_f]:
    the run ends normally, after the iterations that follow [W] too, with
    every event still registered; if [url] is due in [W] it is checked in
    [W], with the status [check_event_availability] returns for it, that
    check is in the log of the run, and the registry after [W] holds
    [url] with that status and that time (for a config as the program
    makes them); if [url] is not due its config is as it was; and the log
    of [W] for [url] is the one of the same iteration over the registry
    without [url_f]. *)
Theorem C9_failure_does_not_stop_the_loop Ws1 W Ws2 d d1 d2 url_f c_f url c :
  NoDup (map fst d) ->
  (monitor_events Ws1 d).1.2 = d1 ++ (url_f, c_f) :: d2 ->
  In (url, c) d2 ->
  let run := monitor_events (Ws1 ++ W :: Ws2) d in
  let after := monitor_events (Ws1 ++ [W]) d in
  let t := time_time W in
  run.1.1 = Ok tt /\
  map fst run.1.2 = map fst d /\
  ((interval c <= t - last_check c)%Z ->
     exists st,
       check_event_availability W url = Ok st /\
       In (t, Checked url st) run.2 /\
       (well_formed c ->
          exists c', In (url, c') after.1.2 /\
            last_check c' = t /\ last_status c' = Some st)) /\
  ((t - last_check c < interval c)%Z -> In (url, c) after.1.2) /\
  for_url url (monitor_iteration W (d1 ++ (url_f, c_f) :: d2)).2 =
    for_url url (monitor_iteration W (d1 ++ d2)).2.
Proof.
  intros Hnd Hreg Hin run after t.
  set (d' := (monitor_events Ws1 d).1.2) in *.
  assert (Hnd' : NoDup (map fst d')) by (unfold d'; by rewrite run_keys).
  assert (Hin' : In (url, c) d').
  { rewrite Hreg. apply in_or_app. right. by right. }
  assert (Hafter : after.1.2 = (monitor_iteration W d').1.2).
  { unfold after. rewrite monitor_events_app. cbv zeta.
    fold d'. rewrite monitor_events_unfold. done. }
  assert (Hrun : forall e, In e (monitor_iteration W d').2 -> In e run.2).
  { intros e He. unfold run. rewrite monitor_events_app. cbv zeta.
    fold d'. rewrite monitor_events_unfold. cbv zeta.
    apply in_or_app. right. apply in_or_app. by left. }
  split; [apply monitor_events_ok|]. split; [apply run_keys|].
  split; [|split].
  - intros Hdue. destruct (check_returns W url) as (st & _ & _ & Hc & _).
    destruct (iteration_checked W d' url c st Hnd' Hin' Hc Hdue)
      as (rest & _ & _ & Hchk & c' & Hl & _ & Hrec).
    exists st. split; [done|]. split; [by apply Hrun|].
    intros Hwf. exists c'. rewrite Hafter. by destruct (Hrec Hwf).
  - intros Hlt. rewrite Hafter.
    pose proof (iteration_lookup W d' url c Hin') as Hl.
    by rewrite (monitor_event_not_due W url c Hlt) in Hl.
  - rewrite <- Hreg.
    rewrite (for_url_iteration W d' url c Hnd' Hin').
    symmetry. apply for_url_iteration.
    + rewrite Hreg, map_app in Hnd'. rewrite map_app. simpl in Hnd'.
      apply NoDup_app in Hnd' as (H1 & H2 & H3).
      apply NoDup_cons in H3 as [_ H3].
      apply NoDup_app. split; [done|]. split; [|done].
      intros x Hx Hx'. apply (H2 x Hx). apply elem_of_cons. by right.
    + apply in_or_app. by right.
Qed.

End Scheduling.

(** ** The schedule at concrete inputs *)


(** The check of that iteration returns the status of the page. *)
Lemma closed_page_check :
  check_event_availability (U:=ascii_only)
    (page_world 1800 closed_soup "CA1" "queued") url0 = Ok closed_status.
Proof. reflexivity. Qed.

(** C9 on two new events and three iterations.  In the first both are
    found on sale and called.  In the second the request for the first
    event times out and the gateway cannot tell whether its call was
    answered; the second event is checked all the same. *)
Lemma C9_witness :
  let d := add_event url1 1800 (add_event url0 1800 []) in
  let W0 := page_world 2000 open_soup "CA1" "queued" in
  let W := outage_world 3800 open_soup "CA2" in
  let W2 := page_world 5600 closed_soup "CA3" "queued" in
  let c := called_config url1 in
  let run := monitor_events (U:=ascii_only) ([W0] ++ W :: [W2]) d in
  let after := monitor_events (U:=ascii_only) ([W0] ++ [W]) d in
  run.1.1 = Ok tt /\
  map fst run.1.2 = map fst d /\
  ((interval c <= 3800 - last_check c)%Z ->
     exists st,
       check_event_availability (U:=ascii_only) W url1 = Ok st /\
       In (3800%Z, Checked url1 st) run.2 /\
       (well_formed c ->
          exists c', In (url1, c') after.1.2 /\
            last_check c' = 3800%Z /\ last_status c' = Some st)) /\
  ((3800 - last_check c < interval c)%Z -> In (url1, c) after.1.2) /\
  for_url url1 (monitor_iteration (U:=ascii_only) W
                  ([] ++ (url0, called_config url0) :: [(url1, c)])).2 =
    for_url url1 (monitor_iteration (U:=ascii_only) W ([] ++ [(url1, c)])).2.
Proof.
  apply (C9_failure_does_not_stop_the_loop (U:=ascii_only)
           [page_world 2000 open_soup "CA1" "queued"]
           (outage_world 3800 open_soup "CA2")
           [page_world 5600 closed_soup "CA3" "queued"]
           (add_event url1 1800 (add_event url0 1800 []))
           [] [(url1, called_config url1)] url0 (called_config url0)
           url1 (called_config url1)).
  - apply NoDup_cons. split; [|apply NoDup_singleton].
    intros H. apply list_elem_of_singleton in H. vm_compute in H. discriminate.
  - vm_compute. reflexivity.
  - left. reflexivity.
Defined.

(** In the second of those iterations the first event does fail: its
    request times out, the check returns the error status, and the
    gateway raises when asked about the call, which counts as not
    answered. *)
Lemma outage_world_fails :
  let W := outage_world 3800 open_soup "CA2" in
  fetch_failure W url0 /\
  (monitor_event (U:=ascii_only) W url0 (called_config url0)).2 =
    [(3800%Z, Checked url0 timeout_status);
     (3800%Z, CallQueried url0 (py "CA1") false)] /\
  (monitor_event (U:=ascii_only) W url1 (called_config url1)).2 =
    [(3800%Z, Checked url1 (page_status (U:=ascii_only) url1 open_soup now0));
     (3800%Z, CallPlaced url1 (Some (py "CA2")))].
Proof.
  split; [|split].
  - left. eexists. reflexivity.
  - vm_compute. reflexivity.
  - vm_compute. reflexivity.
Qed.

(** The error of a page that is not found, as [raise_for_status] words it. *)
Lemma raise_for_status_not_found :
  raise_for_status
    {| status_code := 404; reason := py "Not Found"; response_url := url0; content := [] |}
  = Raise (RequestException (py "404 Client Error: Not Found for url: " ++ url0)).
Proof. reflexivity. Qed.
